(** * A verified model of the playground ledger engine

    Shallow embedding of [src/block.ts] (classes [Block] and [Blockchain]),
    [src/miner.ts] (class [Miner]) and the transaction module (class
    [Transaction]), with the properties of the ledger stated and proved
    against the embedded code.

    Modelling conventions
    - a JavaScript [number] is an IEEE 754 binary64 value; the ledger works
      with integers (the project's own generators draw integer amounts), and
      the model keeps to them: a number is an integer that binary64 holds
      exactly, written in [Z]. Sums and differences are rounded as binary64
      rounds them ([Binary64.round]) and [toString] prints what JavaScript
      prints. Every function is defined on all of [Z]; what it returns
      means something on the integers binary64 holds
      ([Binary64.representable]). Fractions, NaN and the infinities that
      binary64 reaches past 1.79e308 are outside the model;
    - a JavaScript string is a [string] of bytes (its UTF-8 encoding, which
      is what [CryptoJS.SHA256] hashes);
    - [Date.now()] is an input: every function that reads the clock takes
      the readings as arguments; the elapsed time the miner reports is the
      exact difference of two readings, which is what binary64 gives as long
      as it stays below 2^53 milliseconds;
    - a call ends in an [outcome]: it returns ([Ok]), throws ([Throw]), or
      has not returned when the fuel of the mining loop is spent
      ([OutOfFuel]); a method that writes its receiver returns the outcome
      together with the receiver as the call leaves it, so that the state
      after a throw can be stated;
    - the array of transactions of a block holds [Transaction] instances in
      a ledger that was built by calls, and whatever values the file held in
      a ledger that was read back ([as ITransaction[]]); the block and ledger
      records are therefore parameterized by the element type, which only
      has to say how [JSON.stringify] prints it ([JsonValue]);
    - [CryptoJS.SHA256] is the FIPS 180-4 function, implemented below and
      checked on test vectors; the elliptic-curve verification of the
      [elliptic] package is a parameter ([EC]). *)

From Stdlib Require Import ZArith Lia List Bool Ascii String DecimalString DecimalZ.
From stdpp Require Import base list strings relations.

Local Open Scope string_scope.
Local Open Scope Z_scope.

(** ** SHA-256 (FIPS 180-4), the digest behind [CryptoJS.SHA256(...).toString()] *)

Module SHA256.

Definition mask32 : Z := 0xFFFFFFFF.

Definition add32 (x y : Z) : Z := Z.land (x + y) mask32.

Definition rotr (n x : Z) : Z :=
  Z.land (Z.lor (Z.shiftr x n) (Z.shiftl x (32 - n))) mask32.

Definition Ch (x y z : Z) : Z :=
  Z.lxor (Z.land x y) (Z.land (Z.lxor x mask32) z).

Definition Maj (x y z : Z) : Z :=
  Z.lxor (Z.lxor (Z.land x y) (Z.land x z)) (Z.land y z).

Definition Sum0 (x : Z) : Z := Z.lxor (Z.lxor (rotr 2 x) (rotr 13 x)) (rotr 22 x).
Definition Sum1 (x : Z) : Z := Z.lxor (Z.lxor (rotr 6 x) (rotr 11 x)) (rotr 25 x).
Definition sig0 (x : Z) : Z := Z.lxor (Z.lxor (rotr 7 x) (rotr 18 x)) (Z.shiftr x 3).
Definition sig1 (x : Z) : Z := Z.lxor (Z.lxor (rotr 17 x) (rotr 19 x)) (Z.shiftr x 10).

(** The round constants are the first 32 fractional bits of the cube roots
    of the first 64 primes, the initial state those of the square roots of
    the first 8; both are computed rather than tabulated. *)

Definition is_prime (n : Z) : bool :=
  forallb (fun d => negb (n mod Z.of_nat d =? 0)) (seq 2 (Z.to_nat n - 2)).

Definition primes64 : list Z :=
  Eval vm_compute in filter is_prime (map Z.of_nat (seq 2 310)).

Fixpoint icbrt_from (bits : nat) (n r : Z) : Z :=
  match bits with
  | O => r
  | S b =>
      let c := r + 2 ^ Z.of_nat b in
      if c * c * c <=? n then icbrt_from b n c else icbrt_from b n r
  end.

Definition K : list Z :=
  Eval vm_compute in
    map (fun p => Z.land (icbrt_from 36 (p * 2 ^ 96) 0) mask32) primes64.

Definition H0 : list Z :=
  Eval vm_compute in
    map (fun p => Z.land (Z.sqrt (p * 2 ^ 64)) mask32) (firstn 8 primes64).

(** Padding: the byte 0x80, zero bytes up to 56 modulo 64, and the length
    in bits as a 64-bit big-endian number. *)

Fixpoint be_bytes (n : nat) (x : Z) : list Z :=
  match n with
  | O => []
  | S m => Z.land (Z.shiftr x (8 * Z.of_nat m)) 0xFF :: be_bytes m x
  end.

Definition pad (msg : list Z) : list Z :=
  let len := Z.of_nat (length msg) in
  msg ++ 0x80 :: repeat 0 (Z.to_nat ((55 - len) mod 64)) ++ be_bytes 8 (8 * len).

Fixpoint words (fuel : nat) (bs : list Z) : list Z :=
  match fuel, bs with
  | S f, b0 :: b1 :: b2 :: b3 :: rest =>
      (Z.shiftl b0 24 + Z.shiftl b1 16 + Z.shiftl b2 8 + b3) :: words f rest
  | _, _ => []
  end.

(** The message schedule, kept newest word first while it is extended. *)

Fixpoint extend (n : nat) (w : list Z) : list Z :=
  match n with
  | O => w
  | S m =>
      let x := add32 (add32 (add32 (sig1 (nth 1 w 0)) (nth 6 w 0))
                            (sig0 (nth 14 w 0))) (nth 15 w 0) in
      extend m (x :: w)
  end.

Definition schedule (block : list Z) : list Z := rev (extend 48 (rev block)).

Record regs := Regs { ra : Z; rb : Z; rc : Z; rd : Z; re : Z; rf : Z; rg : Z; rh : Z }.

Definition round (s : regs) (kw : Z * Z) : regs :=
  let (k, w) := kw in
  let t1 := add32 (add32 (add32 (add32 (rh s) (Sum1 (re s))) (Ch (re s) (rf s) (rg s))) k) w in
  let t2 := add32 (Sum0 (ra s)) (Maj (ra s) (rb s) (rc s)) in
  Regs (add32 t1 t2) (ra s) (rb s) (rc s) (add32 (rd s) t1) (re s) (rf s) (rg s).

Definition compress (h : regs) (block : list Z) : regs :=
  let s := fold_left round (combine K (schedule block)) h in
  Regs (add32 (ra h) (ra s)) (add32 (rb h) (rb s)) (add32 (rc h) (rc s))
       (add32 (rd h) (rd s)) (add32 (re h) (re s)) (add32 (rf h) (rf s))
       (add32 (rg h) (rg s)) (add32 (rh h) (rh s)).

Fixpoint blocks (fuel : nat) (h : regs) (ws : list Z) : regs :=
  match fuel, ws with
  | S f, _ :: _ => blocks f (compress h (firstn 16 ws)) (skipn 16 ws)
  | _, _ => h
  end.

Definition init : regs :=
  Regs (nth 0 H0 0) (nth 1 H0 0) (nth 2 H0 0) (nth 3 H0 0)
       (nth 4 H0 0) (nth 5 H0 0) (nth 6 H0 0) (nth 7 H0 0).

Definition hex_digit (d : Z) : ascii :=
  ascii_of_nat (Z.to_nat (if d <? 10 then 48 + d else 87 + d)).

Fixpoint hex_of (digits : nat) (x : Z) : string :=
  match digits with
  | O => EmptyString
  | S m => String (hex_digit (Z.land (Z.shiftr x (4 * Z.of_nat m)) 0xF)) (hex_of m x)
  end.

Definition bytes_of (s : string) : list Z :=
  map (fun c => Z.of_nat (nat_of_ascii c)) (list_ascii_of_string s).

Definition digest (s : string) : regs :=
  let bs := pad (bytes_of s) in
  blocks (length bs) init (words (length bs) bs).

(** [CryptoJS.SHA256(data).toString()]: 64 lower-case hexadecimal digits. *)
Definition hex (s : string) : string :=
  let r := digest s in
  hex_of 8 (ra r) +:+ hex_of 8 (rb r) +:+ hex_of 8 (rc r) +:+ hex_of 8 (rd r) +:+
  hex_of 8 (re r) +:+ hex_of 8 (rf r) +:+ hex_of 8 (rg r) +:+ hex_of 8 (rh r).

End SHA256.

(** ** Outcomes of a call *)

Inductive error : Type :=
| InvalidAmountError
| InsufficientBalanceError
| InvalidBlockError
| RangeError
| TypeError
| PlainError.

(** A call returns a value, throws, or is still running when the fuel of
    the mining loop is spent. *)
Inductive outcome (A : Type) : Type :=
| Ok (a : A)
| Throw (e : error)
| OutOfFuel.

Arguments Ok {A} a.
Arguments Throw {A} e.
Arguments OutOfFuel {A}.

#[global] Instance outcome_ret : MRet outcome := fun A a => Ok a.

#[global] Instance outcome_bind : MBind outcome := fun A B f m =>
  match m with
  | Ok a => f a
  | Throw e => Throw e
  | OutOfFuel => OutOfFuel
  end.

(** ** Numbers

    The integers binary64 holds exactly are those of magnitude up to 2^53
    and, beyond, those that fit 53 significant bits. The sum or difference
    of two of them is an integer, and the operation returns the nearest
    integer binary64 holds, the one with the even significand on a tie. *)

Module Binary64.

(** 2^53: up to here every integer is held exactly. *)
Definition limit : Z := 9007199254740992.

(** Rounding to nearest, ties to even, of an integer. *)
Definition round (z : Z) : Z :=
  let a := Z.abs z in
  if a <=? limit then z
  else
    let k := Z.log2 a - 52 in
    let q := Z.shiftr a k in
    let r := Z.land a (Z.ones k) in
    let half := 2 ^ (k - 1) in
    let up := (half <? r) || ((r =? half) && Z.odd q) in
    Z.sgn z * ((if up then q + 1 else q) * 2 ^ k).

(** The integers that are JavaScript numbers. *)
Definition representable (z : Z) : Prop := round z = z.

(** [x + y] and [x - y]; [x++] is [x = x + 1]. *)
Definition add (x y : Z) : Z := round (x + y).
Definition sub (x y : Z) : Z := round (x - y).

End Binary64.

(** ** The JavaScript primitives the code relies on *)

(** The decimal numeral of an integer. *)
Definition decimal (n : Z) : string := NilZero.string_of_int (Z.to_int n).

(** The digits [Number::toString] prints for a positive integral number
    [x]: the decimal [v] with the fewest significant digits that reads back
    as [x], the closest to [x] if there are several, the one with the even
    last digit if two are as close. With [k] significant digits the only
    candidates are [x] cut to [k] digits and that plus one in the last
    place; 17 digits always suffice. Up to 2^53 every integer is a number of
    its own, and all its digits are needed. *)
Definition shortest_at (x : Z) (k : nat) : list Z :=
  let p := 10 ^ Z.max 0 (Z.of_nat (String.length (decimal x)) - Z.of_nat k) in
  let lo := x / p * p in
  let hi := lo + p in
  if (x - lo <? hi - x) || ((x - lo =? hi - x) && Z.even (x / p))
  then [lo; hi] else [hi; lo].

Definition shortest (x : Z) : Z :=
  if x <=? Binary64.limit then x
  else
    match List.find (fun v => Binary64.round v =? x)
                    (flat_map (shortest_at x) (seq 1 17)) with
    | Some v => v
    | None => x
    end.

(** A digit string without its trailing zeros. *)
Fixpoint strip_zeros (s : string) : string :=
  match s with
  | EmptyString => EmptyString
  | String c rest =>
      match strip_zeros rest with
      | EmptyString => if Ascii.eqb c "0" then EmptyString else String c EmptyString
      | rest' => String c rest'
      end
  end.

(** The exponent form [d.ddde+n] of a digit string. *)
Definition exponential (ds : string) : string :=
  match strip_zeros ds with
  | EmptyString => ds
  | String d EmptyString =>
      String d ("e+" +:+ decimal (Z.of_nat (String.length ds) - 1))
  | String d rest =>
      String d ("." +:+ rest +:+ "e+" +:+ decimal (Z.of_nat (String.length ds) - 1))
  end.

(** Up to 21 digits are written out, more go into the exponent form. *)
Definition print (v : Z) : string :=
  let ds := decimal v in
  if (String.length ds <=? 21)%nat then ds else exponential ds.

(** [n.toString()] for an integral number. *)
Definition toString (n : Z) : string :=
  (if n <? 0 then "-" else "") +:+ print (shortest (Z.abs n)).

(** [s.startsWith(target)]. *)
Definition startsWith (s target : string) : bool := String.prefix target s.

Fixpoint zeros (n : nat) : string :=
  match n with
  | O => EmptyString
  | S m => String "0"%char (zeros m)
  end.

(** ['0'.repeat(count)]: a negative count throws a RangeError ([None]). *)
Definition repeat_zero (count : Z) : option string :=
  if count <? 0 then None else Some (zeros (Z.to_nat count)).

(** JavaScript values as [JSON.parse] builds them and [JSON.stringify]
    prints them. An object is the list of its properties in insertion
    order; a property that is not in the list reads as [undefined]. *)
#[local] Unset Elimination Schemes.
Inductive json : Type :=
| JNull
| JBool (b : bool)
| JNum (n : Z)
| JStr (s : string)
| JArr (items : list json)
| JObj (props : list (string * json)).
#[local] Set Elimination Schemes.

Module JSON.

(** [typeof v === 'object' && v !== null] *)
Definition isObject (v : json) : bool :=
  match v with
  | JArr _ | JObj _ => true
  | _ => false
  end.

Fixpoint assoc (name : string) (props : list (string * json)) : option json :=
  match props with
  | [] => None
  | (k, v) :: rest => if String.eqb k name then Some v else assoc name rest
  end.

(** [v.name] for the property names the code reads; [None] is
    [undefined]. An array has none of those names. *)
Definition prop (name : string) (v : json) : option json :=
  match v with
  | JObj props => assoc name props
  | _ => None
  end.

Definition dquote : ascii := "034"%char.

Definition escape (c : ascii) : string :=
  let n := Z.of_nat (nat_of_ascii c) in
  if n =? 34 then String "\"%char (String dquote EmptyString)
  else if n =? 92 then "\\"
  else if n =? 8 then "\b"
  else if n =? 12 then "\f"
  else if n =? 10 then "\n"
  else if n =? 13 then "\r"
  else if n =? 9 then "\t"
  else if n <? 32 then "\u00" +:+ SHA256.hex_of 2 n
  else String c EmptyString.

Fixpoint escape_all (s : string) : string :=
  match s with
  | EmptyString => EmptyString
  | String c rest => escape c +:+ escape_all rest
  end.

Definition quote (s : string) : string :=
  String dquote (escape_all s +:+ String dquote EmptyString).

(** [JSON.stringify(v)] without indentation. *)
Fixpoint stringify (v : json) : string :=
  match v with
  | JNull => "null"
  | JBool true => "true"
  | JBool false => "false"
  | JNum n => toString n
  | JStr s => quote s
  | JArr items => "[" +:+ String.concat "," (map stringify items) +:+ "]"
  | JObj props =>
      "{" +:+ String.concat ","
                (map (fun kv => match kv with
                                | (k, x) => quote k +:+ ":" +:+ stringify x
                                end) props) +:+ "}"
  end.

End JSON.

(** What [JSON.stringify] sees of an element of a transaction array: an
    instance of the [Transaction] class answers with its [toJSON()], a plain
    object read back from a file is printed as it is. *)
Class JsonValue (T : Type) := json_of : T -> json.

#[global] Instance json_JsonValue : JsonValue json := fun v => v.

(** [try { return ec.keyFromPublic(key, 'hex').verify(hash, signature) }
    catch { return false }], supplied by the [elliptic] package. *)
Class EC := ec_verify : string -> string -> string -> bool.

(** The key operations of the [elliptic] package that [sign] calls:
    [ec.keyFromPrivate(key, 'hex').getPublic('hex')] and
    [ec.keyFromPrivate(key, 'hex').sign(hash, 'base64').toDER('hex')];
    [None] when the package throws. *)
Class ECKeys := {
  ec_public : string -> option string;
  ec_sign : string -> string -> option string
}.

(** ** Transaction *)

Module Transaction.

Record t : Type := mk {
  sender : string;
  recipient : string;
  amount : Z;
  timestamp : Z;
  signature : option string
}.

(** [new Transaction(sender, recipient, amount)], [now] being the reading
    of [Date.now()]. *)
Definition new (now : Z) (from to : string) (value : Z) : outcome t :=
  if value <=? 0 then Throw InvalidAmountError
  else Ok (mk from to value now None).

Definition calculateHash (this : t) : string :=
  SHA256.hex (sender this +:+ recipient this +:+
              toString (amount this) +:+ toString (timestamp this)).

(** [!this.signature]: no signature, or the empty one. *)
Definition signature_missing (this : t) : bool :=
  match signature this with
  | None => true
  | Some s => String.eqb s ""
  end.

Definition isValid `{EC} (this : t) : bool :=
  if String.eqb (sender this) "" || String.eqb (sender this) "MINING_REWARD"
  then true
  else if signature_missing this then false
  else match signature this with
       | Some s => ec_verify (sender this) (calculateHash this) s
       | None => false
       end.

(** [sign(privateKey)]: the outcome and the transaction as the call leaves
    it. What the package throws is passed on as a plain error. *)
Definition sign `{ECKeys} (privateKey : string) (this : t) : outcome unit * t :=
  match ec_public privateKey with
  | None => (Throw PlainError, this)
  | Some publicKey =>
      if negb (String.eqb publicKey (sender this)) then (Throw PlainError, this)
      else
        match ec_sign privateKey (calculateHash this) with
        | None => (Throw PlainError, this)
        | Some der =>
            (Ok tt, mk (sender this) (recipient this) (amount this)
                       (timestamp this) (Some der))
        end
  end.

Definition toJSON (this : t) : json :=
  JObj ([("sender", JStr (sender this));
         ("recipient", JStr (recipient this));
         ("amount", JNum (amount this));
         ("timestamp", JNum (timestamp this))] ++
        match signature this with
        | Some s => [("signature", JStr s)]
        | None => []
        end).

(** [Transaction.fromJSON(json)]; [now] is the clock reading the
    constructor takes before the stored timestamp overwrites it. *)
Definition fromJSON (now : Z) (j : json) : outcome t :=
  if negb (JSON.isObject j) then Throw PlainError
  else
    match JSON.prop "sender" j, JSON.prop "recipient" j,
          JSON.prop "amount" j, JSON.prop "timestamp" j with
    | Some (JStr from), Some (JStr to), Some (JNum value), Some (JNum ts) =>
        tx ← new now from to value;
        let tx := mk (sender tx) (recipient tx) (amount tx) ts (signature tx) in
        match JSON.prop "signature" j with
        | Some (JStr sig) =>
            Ok (mk (sender tx) (recipient tx) (amount tx) (timestamp tx) (Some sig))
        | _ => Ok tx
        end
    | _, _, _, _ => Throw PlainError
    end.

Definition createMiningReward (now : Z) (minerAddress : string) (reward : Z)
  : outcome t :=
  new now "MINING_REWARD" minerAddress reward.

End Transaction.

#[global] Instance Transaction_JsonValue : JsonValue Transaction.t :=
  Transaction.toJSON.

(** ** Block *)

Module Block.

Record t (T : Type) : Type := mk {
  index : Z;
  timestamp : Z;
  transactions : list T;
  previousHash : string;
  nonce : Z;
  hash : string
}.

Arguments mk {T} _ _ _ _ _ _.
Arguments index {T} _.
Arguments timestamp {T} _.
Arguments transactions {T} _.
Arguments previousHash {T} _.
Arguments nonce {T} _.
Arguments hash {T} _.

Section Methods.
Context {T : Type} `{JsonValue T}.

(** Field assignments [block.f = v]. *)
Definition set_index (v : Z) (b : t T) : t T :=
  mk v (timestamp b) (transactions b) (previousHash b) (nonce b) (hash b).
Definition set_timestamp (v : Z) (b : t T) : t T :=
  mk (index b) v (transactions b) (previousHash b) (nonce b) (hash b).
Definition set_transactions (v : list T) (b : t T) : t T :=
  mk (index b) (timestamp b) v (previousHash b) (nonce b) (hash b).
Definition set_previousHash (v : string) (b : t T) : t T :=
  mk (index b) (timestamp b) (transactions b) v (nonce b) (hash b).
Definition set_nonce (v : Z) (b : t T) : t T :=
  mk (index b) (timestamp b) (transactions b) (previousHash b) v (hash b).
Definition set_hash (v : string) (b : t T) : t T :=
  mk (index b) (timestamp b) (transactions b) (previousHash b) (nonce b) v.

Definition calculateHash (this : t T) : string :=
  let transactionsString := JSON.stringify (JArr (map json_of (transactions this))) in
  let data :=
    toString (index this) +:+
    previousHash this +:+
    toString (timestamp this) +:+
    transactionsString +:+
    toString (nonce this) in
  SHA256.hex data.

(** The string [data] that [calculateHash] hands to SHA-256. *)
Definition data (this : t T) : string :=
  toString (index this) +:+
  previousHash this +:+
  toString (timestamp this) +:+
  JSON.stringify (JArr (map json_of (transactions this))) +:+
  toString (nonce this).

(** [new Block(index, timestamp, transactions, previousHash, nonce)] *)
Definition new (i ts : Z) (txs : list T) (prev : string) (n : Z) : t T :=
  let this := mk i ts txs prev n EmptyString in
  set_hash (calculateHash this) this.

Definition toJSON (this : t T) : json :=
  JObj [("index", JNum (index this));
        ("timestamp", JNum (timestamp this));
        ("transactions", JArr (map json_of (transactions this)));
        ("previousHash", JStr (previousHash this));
        ("nonce", JNum (nonce this));
        ("hash", JStr (hash this))].

Definition createGenesisBlock (now : Z) : t T := new 0 now [] "0" 0.

End Methods.

(** [Block.fromJSON(json)]: the elements of [transactions] are taken as
    they are ([as ITransaction[]]). *)
Definition fromJSON (j : json) : outcome (t json) :=
  if negb (JSON.isObject j) then Throw InvalidBlockError
  else
    match JSON.prop "index" j, JSON.prop "timestamp" j,
          JSON.prop "transactions" j, JSON.prop "previousHash" j,
          JSON.prop "nonce" j, JSON.prop "hash" j with
    | Some (JNum i), Some (JNum ts), Some (JArr txs),
      Some (JStr prev), Some (JNum n), Some (JStr h) =>
        let block := new i ts txs prev n in
        if negb (String.eqb (hash block) h) then Throw InvalidBlockError
        else Ok block
    | _, _, _, _, _, _ => Throw InvalidBlockError
    end.

End Block.

(** ** Miner *)

Module Miner.

Record t : Type := mk { difficulty : Z }.

Record MiningResult : Type := mkResult {
  nonce : Z;
  hash : string;
  attempts : Z;
  timeMs : Z
}.

Section Methods.
Context {T : Type} `{JsonValue T}.

(** The [while (true)] loop of [mine], one iteration per unit of fuel:
    [attempts++], the digest, and [block.nonce++] when it does not qualify.
    The block is returned as the loop leaves it. *)
Fixpoint search (fuel : nat) (target : string) (tried : Z) (block : Block.t T)
  : option (string * Z) * Block.t T :=
  match fuel with
  | O => (None, block)
  | S fuel' =>
      let tried := Binary64.add tried 1 in
      let h := Block.calculateHash block in
      if startsWith h target
      then (Some (h, tried), Block.set_hash h block)
      else search fuel' target tried
             (Block.set_nonce (Binary64.add (Block.nonce block) 1) block)
  end.

(** [miner.mine(block)]; [startTime] and [endTime] are the two readings of
    the clock. *)
Definition mine (fuel : nat) (startTime endTime : Z) (this : t) (block : Block.t T)
  : outcome MiningResult * Block.t T :=
  match repeat_zero (difficulty this) with
  | None => (Throw RangeError, block)
  | Some target =>
      match search fuel target 0 block with
      | (Some (h, tried), block') =>
          (Ok (mkResult (Block.nonce block') h tried (endTime - startTime)), block')
      | (None, block') => (OutOfFuel, block')
      end
  end.

Definition isValidHash (this : t) (h : string) : outcome bool :=
  match repeat_zero (difficulty this) with
  | None => Throw RangeError
  | Some target => Ok (startsWith h target)
  end.

End Methods.

End Miner.

(** ** Blockchain *)

Module Blockchain.

Record t (T : Type) : Type := mk {
  chain : list (Block.t T);
  pendingTransactions : list T;
  difficulty : Z;
  miningReward : Z
}.

Arguments mk {T} _ _ _ _.
Arguments chain {T} _.
Arguments pendingTransactions {T} _.
Arguments difficulty {T} _.
Arguments miningReward {T} _.

Section Generic.
Context {T : Type} `{JsonValue T}.

Definition set_chain (v : list (Block.t T)) (this : t T) : t T :=
  mk v (pendingTransactions this) (difficulty this) (miningReward this).
Definition set_pendingTransactions (v : list T) (this : t T) : t T :=
  mk (chain this) v (difficulty this) (miningReward this).

(** [this.createGenesisBlock()]; [now 0] stamps the block, [now 1] and
    [now 2] are read by the miner. *)
Definition createGenesisBlock (fuel : nat) (now : nat -> Z) (this : t T)
  : outcome (Block.t T) :=
  let genesisBlock := Block.new 0 (now 0%nat) [] "0" 0 in
  let miner := Miner.mk (difficulty this) in
  match Miner.mine fuel (now 1%nat) (now 2%nat) miner genesisBlock with
  | (Ok _, mined) => Ok mined
  | (Throw e, _) => Throw e
  | (OutOfFuel, _) => OutOfFuel
  end.

(** [new Blockchain(difficulty, miningReward)] *)
Definition new (fuel : nat) (now : nat -> Z) (d reward : Z) : outcome (t T) :=
  let this := mk [] [] d reward in
  genesisBlock ← createGenesisBlock fuel now this;
  Ok (set_chain [genesisBlock] this).

(** [this.chain[this.chain.length - 1]], [None] for [undefined]. *)
Definition getLatestBlock (this : t T) : option (Block.t T) :=
  last (chain this).

(** The loop of [isChainValid]: [todo] iterations are left, the next one
    looks at [chain[i]] and [chain[i - 1]]. *)
Fixpoint validate_from (target : string) (blocks : list (Block.t T))
    (todo i : nat) : bool :=
  match todo with
  | O => true
  | S todo' =>
      match blocks !! i, blocks !! (i - 1)%nat with
      | Some currentBlock, Some previousBlock =>
          if negb (String.eqb (Block.hash currentBlock)
                              (Block.calculateHash currentBlock)) then false
          else if negb (String.eqb (Block.previousHash currentBlock)
                                   (Block.hash previousBlock)) then false
          else if negb (startsWith (Block.hash currentBlock) target) then false
          else validate_from target blocks todo' (S i)
      | _, _ => true
      end
  end.

Definition isChainValid (this : t T) : outcome bool :=
  match repeat_zero (difficulty this) with
  | None => Throw RangeError
  | Some target =>
      Ok (validate_from target (chain this) (length (chain this) - 1) 1)
  end.

(** [toJSON()] followed by the serialization of the pending pool. *)
Definition toJSON (this : t T) : json :=
  JObj [("chain", JArr (map Block.toJSON (chain this)));
        ("pendingTransactions", JArr (map json_of (pendingTransactions this)));
        ("difficulty", JNum (difficulty this));
        ("miningReward", JNum (miningReward this))].

End Generic.

(** [Blockchain.fromJSON(json)]: a ledger is built first (which mines a
    genesis block that is then dropped), the blocks go through
    [Block.fromJSON], the pending pool is taken as it is. *)
Definition fromJSON (fuel : nat) (now : nat -> Z) (j : json)
  : outcome (t json) :=
  if negb (JSON.isObject j) then Throw PlainError
  else
    match JSON.prop "chain" j, JSON.prop "pendingTransactions" j,
          JSON.prop "difficulty" j, JSON.prop "miningReward" j with
    | Some (JArr blocks), Some (JArr pending), Some (JNum d), Some (JNum reward) =>
        blockchain ← new fuel now d reward;
        restored ← mapM Block.fromJSON blocks;
        Ok (set_pendingTransactions pending (set_chain restored blockchain))
    | _, _, _, _ => Throw PlainError
    end.

(** The methods that read the fields of the transactions. *)
Section Typed.
Context `{EC}.

(** The body of the inner loop of [getBalanceOfAddress]:
    [balance -= tx.amount] and [balance += tx.amount]. *)
Definition credit (address : string) (balance : Z) (tx : Transaction.t) : Z :=
  let balance :=
    if String.eqb (Transaction.sender tx) address
    then Binary64.sub balance (Transaction.amount tx) else balance in
  if String.eqb (Transaction.recipient tx) address
  then Binary64.add balance (Transaction.amount tx) else balance.

Definition getBalanceOfAddress (address : string) (this : t Transaction.t) : Z :=
  fold_left (fun balance block =>
               fold_left (credit address) (Block.transactions block) balance)
            (chain this) 0.

Definition getTransactionHistory (address : string) (this : t Transaction.t)
  : list Transaction.t :=
  flat_map (fun block =>
              List.filter (fun tx => String.eqb (Transaction.sender tx) address
                                || String.eqb (Transaction.recipient tx) address)
                     (Block.transactions block))
           (chain this).

(** [addTransaction(transaction)]: the outcome and the ledger it leaves. *)
Definition addTransaction (transaction : Transaction.t) (this : t Transaction.t)
  : outcome bool * t Transaction.t :=
  let accept :=
    (Ok true, set_pendingTransactions (pendingTransactions this ++ [transaction]) this) in
  if negb (String.eqb (Transaction.sender transaction) "MINING_REWARD") then
    if negb (Transaction.isValid transaction) then (Ok false, this)
    else
      let senderBalance := getBalanceOfAddress (Transaction.sender transaction) this in
      if senderBalance <? Transaction.amount transaction
      then (Throw InsufficientBalanceError, this)
      else accept
  else accept.

(** [minePendingTransactions(minerAddress)]; [now 0] stamps the reward,
    [now 1] the block, [now 2] and [now 3] are read by the miner. *)
Definition minePendingTransactions (fuel : nat) (now : nat -> Z)
    (minerAddress : string) (this : t Transaction.t)
  : outcome (Block.t Transaction.t) * t Transaction.t :=
  match Transaction.createMiningReward (now 0%nat) minerAddress (miningReward this) with
  | Throw e => (Throw e, this)
  | OutOfFuel => (OutOfFuel, this)
  | Ok rewardTx =>
      let this := set_pendingTransactions (pendingTransactions this ++ [rewardTx]) this in
      match getLatestBlock this with
      | None => (Throw TypeError, this)
      | Some latest =>
          let block :=
            Block.new (Z.of_nat (length (chain this))) (now 1%nat)
                      (pendingTransactions this) (Block.hash latest) 0 in
          let miner := Miner.mk (difficulty this) in
          match Miner.mine fuel (now 2%nat) (now 3%nat) miner block with
          | (Throw e, _) => (Throw e, this)
          | (OutOfFuel, _) => (OutOfFuel, this)
          | (Ok _, block) =>
              let this := set_chain (chain this ++ [block]) this in
              let this := set_pendingTransactions [] this in
              (Ok block, this)
          end
      end
  end.

End Typed.

End Blockchain.

(** ** What the properties are stated with *)

(** A string begins with [n] zero characters. *)
Definition begins_with_zeros (n : Z) (h : string) : Prop :=
  0 <= n /\ forall k : nat, Z.of_nat k < n -> String.get k h = Some "0"%char.

(** The confirmed transactions of a ledger, in chain order. *)
Definition confirmed (l : Blockchain.t Transaction.t) : list Transaction.t :=
  flat_map Block.transactions (Blockchain.chain l).

Definition sum_amounts (txs : list Transaction.t) : Z :=
  fold_right Z.add 0 (map Transaction.amount txs).

Definition received (address : string) (txs : list Transaction.t) : Z :=
  sum_amounts (List.filter (fun tx => String.eqb (Transaction.recipient tx) address) txs).

Definition sent (address : string) (txs : list Transaction.t) : Z :=
  sum_amounts (List.filter (fun tx => String.eqb (Transaction.sender tx) address) txs).

(** The ledger invariant of the data model. *)
Definition ledger_invariant {T : Type} (l : Blockchain.t T) : Prop :=
  Blockchain.chain l <> [] /\
  (exists genesis, Blockchain.chain l !! 0%nat = Some genesis /\
                   Block.previousHash genesis = "0" /\
                   Block.transactions genesis = []) /\
  (forall (i : nat) current previous,
      (1 <= i)%nat ->
      Blockchain.chain l !! i = Some current ->
      Blockchain.chain l !! (i - 1)%nat = Some previous ->
      Block.previousHash current = Block.hash previous /\
      begins_with_zeros (Blockchain.difficulty l) (Block.hash current)).

(** The ledgers a caller obtains from the constructor through calls of
    [addTransaction] and [minePendingTransactions] that returned. *)
Inductive reachable `{EC} : Blockchain.t Transaction.t -> Prop :=
| reach_new fuel now d reward l :
    Blockchain.new fuel now d reward = Ok l ->
    reachable l
| reach_addTransaction tx l accepted l' :
    reachable l ->
    Blockchain.addTransaction tx l = (Ok accepted, l') ->
    reachable l'
| reach_minePendingTransactions fuel now minerAddress l block l' :
    reachable l ->
    Blockchain.minePendingTransactions fuel now minerAddress l = (Ok block, l') ->
    reachable l'.

(** One call of [addTransaction] or [minePendingTransactions] on a ledger,
    whatever its outcome, and the ledger it leaves. *)
Inductive call `{EC} : Blockchain.t Transaction.t -> Blockchain.t Transaction.t -> Prop :=
| call_addTransaction tx l o l' :
    Blockchain.addTransaction tx l = (o, l') -> call l l'
| call_minePendingTransactions fuel now minerAddress l o l' :
    Blockchain.minePendingTransactions fuel now minerAddress l = (o, l') -> call l l'.

(** A transaction that passed, or would pass, the admission test of
    [addTransaction] on its sender and signature. *)
Definition admitted `{EC} (t : Transaction.t) : Prop :=
  Transaction.sender t = "MINING_REWARD" \/ Transaction.isValid t = true.

(** One stored field of a block is overwritten with a different value. *)
Inductive tampered {T : Type} (b : Block.t T) : Block.t T -> Prop :=
| tamper_index v : v <> Block.index b -> tampered b (Block.set_index v b)
| tamper_timestamp v : v <> Block.timestamp b -> tampered b (Block.set_timestamp v b)
| tamper_transactions v :
    v <> Block.transactions b -> tampered b (Block.set_transactions v b)
| tamper_previousHash v :
    v <> Block.previousHash b -> tampered b (Block.set_previousHash v b)
| tamper_nonce v : v <> Block.nonce b -> tampered b (Block.set_nonce v b)
| tamper_hash v : v <> Block.hash b -> tampered b (Block.set_hash v b).

(** The three checks [isChainValid] makes on a block and its predecessor. *)
Definition link_ok {T : Type} `{JsonValue T} (target : string)
    (previous current : Block.t T) : Prop :=
  Block.hash current = Block.calculateHash current /\
  Block.previousHash current = Block.hash previous /\
  startsWith (Block.hash current) target = true.

(** Shapes of serialized values. *)
Definition is_number (o : option json) : bool :=
  match o with Some (JNum _) => true | _ => false end.
Definition is_string (o : option json) : bool :=
  match o with Some (JStr _) => true | _ => false end.
Definition is_array (o : option json) : bool :=
  match o with Some (JArr _) => true | _ => false end.

(** The six fields of a serialized block as they are stored, when each is
    there with the type [Block.fromJSON] asks for. *)
Definition stored_block (bj : json) : option (Block.t json) :=
  match JSON.prop "index" bj, JSON.prop "timestamp" bj,
        JSON.prop "transactions" bj, JSON.prop "previousHash" bj,
        JSON.prop "nonce" bj, JSON.prop "hash" bj with
  | Some (JNum i), Some (JNum ts), Some (JArr txs),
    Some (JStr prev), Some (JNum n), Some (JStr h) => Some (Block.mk i ts txs prev n h)
  | _, _, _, _, _, _ => None
  end.

(** The serialized ledger has its four fields with the types
    [Blockchain.fromJSON] asks for. *)
Definition ledger_shape (j : json) : bool :=
  JSON.isObject j && is_array (JSON.prop "chain" j) &&
  is_array (JSON.prop "pendingTransactions" j) &&
  is_number (JSON.prop "difficulty" j) &&
  is_number (JSON.prop "miningReward" j).

(** A block as [JSON.stringify] writes it and [JSON.parse] reads it back. *)
Definition at_rest {T : Type} `{JsonValue T} (b : Block.t T) : Block.t json :=
  Block.mk (Block.index b) (Block.timestamp b) (map json_of (Block.transactions b))
           (Block.previousHash b) (Block.nonce b) (Block.hash b).

(** The image of a ledger that [JSON.stringify] writes and [JSON.parse]
    reads back. *)
Definition ledger_at_rest {T : Type} `{JsonValue T} (l : Blockchain.t T)
  : Blockchain.t json :=
  Blockchain.mk (map at_rest (Blockchain.chain l))
                (map json_of (Blockchain.pendingTransactions l))
                (Blockchain.difficulty l) (Blockchain.miningReward l).

(** A serialized block that [Block.fromJSON] turns down. *)
Definition block_rejected (bj : json) : Prop :=
  stored_block bj = None \/
  exists s, stored_block bj = Some s /\ Block.hash s <> Block.calculateHash s.

(** The numbers a transaction, and a block with its transactions, holds
    are JavaScript numbers. *)
Definition transaction_numbers (t : Transaction.t) : Prop :=
  Binary64.representable (Transaction.amount t) /\
  Binary64.representable (Transaction.timestamp t).

Definition block_numbers (b : Block.t Transaction.t) : Prop :=
  Binary64.representable (Block.index b) /\
  Binary64.representable (Block.timestamp b) /\
  Binary64.representable (Block.nonce b) /\
  Forall transaction_numbers (Block.transactions b).

(** Two different strings with the same SHA-256 digest. *)
Definition collide (s s' : string) : Prop :=
  s <> s' /\ SHA256.hex s = SHA256.hex s'.

(** What [JSON.stringify] prints for a transaction, piece by piece. *)
Definition transaction_text (t : Transaction.t) : string :=
  "{" +:+ JSON.quote "sender" +:+ ":" +:+ JSON.quote (Transaction.sender t) +:+
  "," +:+ JSON.quote "recipient" +:+ ":" +:+ JSON.quote (Transaction.recipient t) +:+
  "," +:+ JSON.quote "amount" +:+ ":" +:+ toString (Transaction.amount t) +:+
  "," +:+ JSON.quote "timestamp" +:+ ":" +:+ toString (Transaction.timestamp t) +:+
  match Transaction.signature t with
  | Some sig => "," +:+ JSON.quote "signature" +:+ ":" +:+ JSON.quote sig
  | None => ""
  end +:+ "}".

(** The value of a hexadecimal digit. *)
Definition hex_value (c : ascii) : nat :=
  let n := nat_of_ascii c in
  if (n <=? 57)%nat then (n - 48)%nat else (n - 87)%nat.

(** The character whose escape a string begins with, and what follows
    it: [JSON.escape] read back. *)
Definition unescape (s : string) : option (ascii * string) :=
  match s with
  | EmptyString => None
  | String c rest =>
      if Ascii.eqb c "\" then
        match rest with
        | EmptyString => None
        | String e rest' =>
            if Ascii.eqb e "u" then
              match rest' with
              | String _ (String _ (String h (String l rest''))) =>
                  Some (ascii_of_nat (16 * hex_value h + hex_value l), rest'')
              | _ => None
              end
            else if Ascii.eqb e "b" then Some ("008"%char, rest')
            else if Ascii.eqb e "f" then Some ("012"%char, rest')
            else if Ascii.eqb e "n" then Some ("010"%char, rest')
            else if Ascii.eqb e "r" then Some ("013"%char, rest')
            else if Ascii.eqb e "t" then Some ("009"%char, rest')
            else Some (e, rest')
        end
      else Some (c, rest)
  end.

(** Every character of a string passes a test. *)
Fixpoint all_chars (p : ascii -> bool) (s : string) : bool :=
  match s with
  | EmptyString => true
  | String c rest => p c && all_chars p rest
  end.

(** A string is empty or begins with a character that fails the test. *)
Definition stops (p : ascii -> bool) (s : string) : Prop :=
  match s with
  | EmptyString => True
  | String c _ => p c = false
  end.

Definition is_digit (c : ascii) : bool :=
  let n := nat_of_ascii c in (48 <=? n)%nat && (n <=? 57)%nat.

(** The characters [toString] prints. *)
Definition is_numeral (c : ascii) : bool :=
  is_digit c || Ascii.eqb c "-" || Ascii.eqb c "." || Ascii.eqb c "e" || Ascii.eqb c "+".

(** ** A sample run

    A ledger of difficulty 1 and reward 100 built at clock reading
    1700000000004, one block mined for "alice", and two payments of "alice"
    that together exceed her balance. The digests are those SHA-256 gives. *)

(** A stand-in for the signature check: the signature names its key. *)
Definition sample_ec : EC :=
  fun key _ sig => String.eqb sig ("signed-by:" +:+ key).

(** A signature check that accepts nothing. *)
Definition reject_all : EC := fun _ _ _ => false.

Definition clockA (k : nat) : Z := 1700000000004 + Z.of_nat k.
Definition clockB (k : nat) : Z := 1700000001050 + Z.of_nat k.

Definition genesis0 : Block.t Transaction.t :=
  Block.mk 0 1700000000004 [] "0" 0
    "0ee38a3187628f40fc4a1bedfafac2d5ede1c9bd3b7b7b31447ad34737ccaebe".

Definition ledger0 : Blockchain.t Transaction.t :=
  Blockchain.mk [genesis0] [] 1 100.

Definition reward_alice : Transaction.t :=
  Transaction.mk "MINING_REWARD" "alice" 100 1700000001050 None.

Definition block1 : Block.t Transaction.t :=
  Block.mk 1 1700000001051 [reward_alice]
    "0ee38a3187628f40fc4a1bedfafac2d5ede1c9bd3b7b7b31447ad34737ccaebe" 0
    "002dd21659960f06811bb936a6c9f958b150df077893ca3860e5b3f9bf229cc8".

Definition ledger1 : Blockchain.t Transaction.t :=
  Blockchain.mk [genesis0; block1] [] 1 100.

Definition pay60 : Transaction.t :=
  Transaction.mk "alice" "bob" 60 1700000002000 (Some "signed-by:alice").
Definition pay70 : Transaction.t :=
  Transaction.mk "alice" "bob" 70 1700000002001 (Some "signed-by:alice").
Definition pay101 : Transaction.t :=
  Transaction.mk "alice" "bob" 101 1700000002002 (Some "signed-by:alice").

Definition ledger2 : Blockchain.t Transaction.t :=
  Blockchain.mk [genesis0; block1] [pay60] 1 100.
Definition ledger3 : Blockchain.t Transaction.t :=
  Blockchain.mk [genesis0; block1] [pay60; pay70] 1 100.

(** A third block: the two payments, mined for "carol" at clock reading
    1700000003020. *)
Definition clockC (k : nat) : Z := 1700000003020 + Z.of_nat k.

Definition reward_carol : Transaction.t :=
  Transaction.mk "MINING_REWARD" "carol" 100 1700000003020 None.

Definition block2 : Block.t Transaction.t :=
  Block.mk 2 1700000003021 [pay60; pay70; reward_carol]
    "002dd21659960f06811bb936a6c9f958b150df077893ca3860e5b3f9bf229cc8" 0
    "0474c07478ae5d172c288117c4dbd190dbbccf342c3915d9a034d12cf964c0f4".

Definition ledger4 : Blockchain.t Transaction.t :=
  Blockchain.mk [genesis0; block1; block2] [] 1 100.

(** [block1] with its reward redirected to "mallory". *)
Definition block1_redirected : Block.t Transaction.t :=
  Block.set_transactions
    [Transaction.mk "MINING_REWARD" "mallory" 100 1700000001050 None] block1.

(** A run with large amounts: 2^53 is credited to "alice" by a transaction
    with the reward sender and mined for "bob"; then "alice" pays 1 to
    "carol", is credited 1 twice more, and a second block is mined. *)
Definition clockD (k : nat) : Z := 1700000003150 + Z.of_nat k.
Definition clockE (k : nat) : Z := 1700000004170 + Z.of_nat k.

Definition mint_2_53 : Transaction.t :=
  Transaction.mk "MINING_REWARD" "alice" 9007199254740992 1700000003000 None.
Definition pay1 : Transaction.t :=
  Transaction.mk "alice" "carol" 1 1700000004000 (Some "signed-by:alice").
Definition mint1 : Transaction.t :=
  Transaction.mk "MINING_REWARD" "alice" 1 1700000004001 None.
Definition mint1_again : Transaction.t :=
  Transaction.mk "MINING_REWARD" "alice" 1 1700000004002 None.

Definition block1_large : Block.t Transaction.t :=
  Block.mk 1 1700000003151
    [mint_2_53; Transaction.mk "MINING_REWARD" "bob" 100 1700000003150 None]
    "0ee38a3187628f40fc4a1bedfafac2d5ede1c9bd3b7b7b31447ad34737ccaebe" 0
    "0b1d0296bbc798f98de25405571098882a195a0bac0ab427004344e5b0ab9d21".

Definition block2_large : Block.t Transaction.t :=
  Block.mk 2 1700000004171
    [pay1; mint1; mint1_again;
     Transaction.mk "MINING_REWARD" "bob" 100 1700000004170 None]
    "0b1d0296bbc798f98de25405571098882a195a0bac0ab427004344e5b0ab9d21" 0
    "0814e3f761fb67cdd6014140cfeff5a32de5a76997cc29994c6b1ecb184d41d3".

Definition ledger1_large : Blockchain.t Transaction.t :=
  Blockchain.mk [genesis0; block1_large] [] 1 100.
Definition ledger2_large : Blockchain.t Transaction.t :=
  Blockchain.mk [genesis0; block1_large; block2_large] [] 1 100.

(** A stand-in for the key operations that agrees with [sample_ec]. *)
Definition sample_keys : ECKeys :=
  {| ec_public := fun key => Some ("pub:" +:+ key);
     ec_sign := fun key _ => Some ("signed-by:pub:" +:+ key) |}.

Definition unsigned_carol : Transaction.t :=
  Transaction.mk "pub:carol" "bob" 5 1700000002005 None.

Definition signed_carol : Transaction.t :=
  Transaction.mk "pub:carol" "bob" 5 1700000002005 (Some "signed-by:pub:carol").

(** A block made outside the ledger to stand in for [block1]: it pays
    "mallory", carries the hash of [genesis0] and was mined at difficulty 1. *)
Definition block1_forged : Block.t Transaction.t :=
  Block.mk 1 1700000001052
    [Transaction.mk "MINING_REWARD" "mallory" 1000000 1700000001050 None]
    "0ee38a3187628f40fc4a1bedfafac2d5ede1c9bd3b7b7b31447ad34737ccaebe" 1
    "05fd5d0331e99a8647cc372ad46c43f1652366753fcaab003d5396b06ed9d110".

(** An unsigned transaction with the empty sender. *)
Definition unsigned_from_nobody : Transaction.t :=
  Transaction.mk "" "bob" 5 1700000002003 None.

(** A reward-sender transaction made by a caller. *)
Definition minted : Transaction.t :=
  Transaction.mk "MINING_REWARD" "mallory" 1000000 1700000002004 None.

(** The first block of [ledger1] with its timestamp overwritten. *)
Definition genesis_redated : Block.t Transaction.t :=
  Block.set_timestamp 1600000000000 genesis0.

(** A serialized ledger whose pending pool holds something that is not a
    transaction. *)
Definition malformed_pending : json := JObj [("sender", JNum 7)].
Definition serialized_with_malformed_pending : json :=
  JObj [("chain", JArr [Block.toJSON genesis0]);
        ("pendingTransactions", JArr [malformed_pending]);
        ("difficulty", JNum 1);
        ("miningReward", JNum 100)].

(** ** Test vectors for the digest *)

Example sha256_empty :
  SHA256.hex "" = "e3b0c44298fc1c149afbf4c8996fb92427ae41e4649b934ca495991b7852b855".
Proof. vm_compute. reflexivity. Qed.

Example sha256_abc :
  SHA256.hex "abc" = "ba7816bf8f01cfea414140de5dae2223b00361a396177a9cb410ff61f20015ad".
Proof. vm_compute. reflexivity. Qed.

Example sha256_two_blocks :
  SHA256.hex "abcdbcdecdefdefgefghfghighijhijkijkljklmklmnlmnomnopnopq"
  = "248d6a61d20638b8e5c026930c3e6039a33ce45964ff2167f6ecedd419db06c1".
Proof. vm_compute. reflexivity. Qed.

Example sha256_round_constants :
  nth 0 SHA256.K 0 = 0x428a2f98 /\ nth 63 SHA256.K 0 = 0xc67178f2 /\
  nth 0 SHA256.H0 0 = 0x6a09e667 /\ nth 7 SHA256.H0 0 = 0x5be0cd19.
Proof. vm_compute. repeat split. Qed.

(** ** Strings *)

Lemma startsWith_zeros (n : nat) (h : string) :
  startsWith h (zeros n) = true <->
  forall k : nat, (k < n)%nat -> String.get k h = Some "0"%char.
Proof.
  unfold startsWith. revert h.
  induction n as [|n IH]; intros h.
  - split; [intros _ k Hk; lia | intros _; destruct h; reflexivity].
  - destruct h as [|c h].
    + split; [discriminate |].
      intros Hall. specialize (Hall 0%nat ltac:(lia)). discriminate.
    + change (String.prefix (zeros (S n)) (String c h))
        with (if ascii_dec "0" c then String.prefix (zeros n) h else false).
      destruct (ascii_dec "0" c) as [<-|Hne].
      * rewrite IH. split.
        -- intros Hall [|k] Hk; [reflexivity | apply Hall; lia].
        -- intros Hall k Hk. apply (Hall (S k)). lia.
      * split; [discriminate |].
        intros Hall. specialize (Hall 0%nat ltac:(lia)).
        cbn [String.get] in Hall. congruence.
Qed.

Lemma repeat_zero_begins (d : Z) (target h : string) :
  repeat_zero d = Some target ->
  startsWith h target = true ->
  begins_with_zeros d h.
Proof.
  unfold repeat_zero. destruct (d <? 0) eqn:Hd; [discriminate |].
  intros [= <-] Hs. apply Z.ltb_ge in Hd. split; [exact Hd |].
  intros k Hk. eapply startsWith_zeros; [exact Hs | lia].
Qed.

Lemma begins_repeat_zero (d : Z) (h : string) :
  begins_with_zeros d h ->
  exists target, repeat_zero d = Some target /\ startsWith h target = true.
Proof.
  intros [Hd Hall]. unfold repeat_zero.
  destruct (d <? 0) eqn:E; [apply Z.ltb_lt in E; lia |].
  eexists; split; [reflexivity |].
  apply startsWith_zeros. intros k Hk. apply Hall. lia.
Qed.

(** ** Binary64 arithmetic *)

(** Up to 2^53 nothing is rounded. *)
Lemma round_exact (z : Z) :
  - Binary64.limit <= z <= Binary64.limit -> Binary64.round z = z.
Proof.
  intros Hz. unfold Binary64.round.
  destruct (Z.leb_spec (Z.abs z) Binary64.limit); [reflexivity | lia].
Qed.

(** Rounding is symmetric about zero. *)
Lemma round_opp (z : Z) : Binary64.round (- z) = - Binary64.round z.
Proof.
  unfold Binary64.round. rewrite Z.abs_opp, Z.sgn_opp.
  destruct (Z.abs z <=? Binary64.limit); [reflexivity | ring].
Qed.

Lemma representable_abs (z : Z) :
  Binary64.representable z -> Binary64.representable (Z.abs z).
Proof.
  unfold Binary64.representable. intros Hz.
  destruct (Z.abs_spec z) as [[_ ->] | [_ ->]]; [exact Hz |].
  rewrite round_opp, Hz. reflexivity.
Qed.

Lemma add_exact (x y : Z) :
  - Binary64.limit <= x + y <= Binary64.limit -> Binary64.add x y = x + y.
Proof. apply round_exact. Qed.

Lemma sub_exact (x y : Z) :
  - Binary64.limit <= x - y <= Binary64.limit -> Binary64.sub x y = x - y.
Proof. apply round_exact. Qed.

(** Past 2^53 the odd integers are rounded away, to the even significand on
    a tie; past 2^54 so are the multiples of 2 that are not multiples of 4. *)
Example round_past_limit :
  Binary64.add 9007199254740992 1 = 9007199254740992 /\
  Binary64.add 9007199254740994 1 = 9007199254740996 /\
  Binary64.sub (-9007199254740992) 1 = -9007199254740992 /\
  Binary64.round 18014398509481986 = 18014398509481984 /\
  Binary64.round 18014398509481990 = 18014398509481992 /\
  Binary64.round 1180591620717411303425 = 1180591620717411303424.
Proof. vm_compute. repeat split. Qed.

(** ** Appending strings *)

Lemma length_append (a b : string) :
  String.length (a +:+ b) = (String.length a + String.length b)%nat.
Proof.
  induction a as [|c a IH]; [reflexivity |].
  change (S (String.length (a +:+ b)) = S (String.length a + String.length b)).
  f_equal. exact IH.
Qed.

Lemma append_assoc (a b c : string) : (a +:+ b) +:+ c = a +:+ (b +:+ c).
Proof.
  induction a as [|x a IH]; [reflexivity |].
  change (String x ((a +:+ b) +:+ c) = String x (a +:+ (b +:+ c))).
  f_equal. exact IH.
Qed.

Lemma append_cancel_l (a x y : string) : a +:+ x = a +:+ y -> x = y.
Proof.
  induction a as [|c a IH]; [trivial |].
  change (String c (a +:+ x) = String c (a +:+ y) -> x = y).
  intros [= E]. exact (IH E).
Qed.

Lemma append_cancel_r (a x y : string) : x +:+ a = y +:+ a -> x = y.
Proof.
  revert y. induction x as [|c x IH]; intros [|d y] E.
  - reflexivity.
  - exfalso. apply (f_equal String.length) in E.
    rewrite !length_append in E. cbn [String.length] in E. lia.
  - exfalso. apply (f_equal String.length) in E.
    rewrite !length_append in E. cbn [String.length] in E. lia.
  - change (String c (x +:+ a) = String d (y +:+ a)) in E.
    injection E as -> E. f_equal. exact (IH y E).
Qed.

Lemma all_chars_append (p : ascii -> bool) (a b : string) :
  all_chars p (a +:+ b) = all_chars p a && all_chars p b.
Proof.
  induction a as [|c a IH]; [reflexivity |].
  change (p c && all_chars p (a +:+ b) = p c && all_chars p a && all_chars p b).
  rewrite IH. apply andb_assoc.
Qed.

Lemma all_chars_impl (p q : ascii -> bool) (s : string) :
  (forall c, p c = true -> q c = true) ->
  all_chars p s = true -> all_chars q s = true.
Proof.
  intros Hpq. induction s as [|c s IH]; [trivial |].
  cbn [all_chars]. intros [Hc Hs]%andb_prop.
  rewrite (Hpq c Hc), (IH Hs). reflexivity.
Qed.

(** A run of characters that pass a test, followed by something that does
    not go on with one, can be read off in one way only. *)
Lemma span_unique (p : ascii -> bool) (a a' r r' : string) :
  all_chars p a = true -> all_chars p a' = true ->
  stops p r -> stops p r' ->
  a +:+ r = a' +:+ r' -> a = a' /\ r = r'.
Proof.
  revert a'. induction a as [|c a IH]; intros [|c' a'] Ha Ha' Hr Hr' E.
  - split; [reflexivity | exact E].
  - exfalso. change ("" +:+ r) with r in E.
    change (String c' a' +:+ r') with (String c' (a' +:+ r')) in E.
    subst r. cbn in Hr. cbn [all_chars] in Ha'.
    apply andb_prop in Ha' as [Hc _]. congruence.
  - exfalso. change ("" +:+ r') with r' in E.
    change (String c a +:+ r) with (String c (a +:+ r)) in E.
    subst r'. cbn in Hr'. cbn [all_chars] in Ha.
    apply andb_prop in Ha as [Hc _]. congruence.
  - change (String c (a +:+ r) = String c' (a' +:+ r')) in E.
    injection E as -> E. cbn [all_chars] in Ha, Ha'.
    apply andb_prop in Ha as [_ Ha]. apply andb_prop in Ha' as [_ Ha'].
    destruct (IH a' Ha Ha' Hr Hr' E) as [-> ->]. split; reflexivity.
Qed.

(** ** Numerals *)

(** The decimal numeral determines the integer, and consists of digits. *)
Lemma decimal_inj (a b : Z) : decimal a = decimal b -> a = b.
Proof.
  unfold decimal. intros E. apply DecimalZ.to_int_inj.
  assert (Hn : forall n, Z.to_int n <> Decimal.Pos Decimal.Nil /\
                         Z.to_int n <> Decimal.Neg Decimal.Nil).
  { intros [|p|p]; cbn; split; try discriminate;
      intros [= Hp]; exact (DecimalPos.Unsigned.to_uint_nonnil p Hp). }
  apply (f_equal NilZero.int_of_string) in E.
  rewrite !NilZero.isi in E by apply Hn. congruence.
Qed.

Lemma uint_digits (d : Decimal.uint) :
  all_chars is_digit (NilEmpty.string_of_uint d) = true.
Proof. induction d; cbn; try reflexivity; exact IHd. Qed.

Lemma decimal_digits (v : Z) :
  0 <= v -> all_chars is_digit (decimal v) = true /\ decimal v <> "".
Proof.
  intros Hv. unfold decimal. destruct v as [|p|p]; [split; [reflexivity | discriminate] | | lia].
  cbn [Z.to_int NilZero.string_of_int]. unfold NilZero.string_of_uint.
  destruct (Pos.to_uint p) eqn:Hp;
    try (split; [|discriminate]; rewrite <- Hp; apply uint_digits).
  split; [reflexivity | discriminate].
Qed.

(** ** The shortest digits *)

(** The digits chosen for a number read back as the number. *)
Lemma shortest_nonneg (x : Z) : 0 <= x -> 0 <= shortest x.
Proof.
  intros Hx. unfold shortest. destruct (x <=? Binary64.limit); [exact Hx |].
  destruct (List.find _ _) as [v|] eqn:Hf; [|exact Hx].
  apply find_some in Hf as [Hin _]. apply in_flat_map in Hin as (k & _ & Hin).
  unfold shortest_at in Hin.
  set (p := 10 ^ _) in Hin.
  assert (Hp : 0 < p) by (apply Z.pow_pos_nonneg; lia).
  assert (Hlo : 0 <= x / p * p).
  { apply Z.mul_nonneg_nonneg; [apply Z.div_pos; lia | lia]. }
  destruct (_ || _); cbn in Hin; destruct Hin as [<- | [<- | []]]; lia.
Qed.

Lemma shortest_round (x : Z) :
  Binary64.round x = x -> Binary64.round (shortest x) = x.
Proof.
  intros Hx. unfold shortest. destruct (x <=? Binary64.limit); [exact Hx |].
  destruct (List.find _ _) as [v|] eqn:Hf; [|exact Hx].
  apply find_some in Hf as [_ Hv]. apply Z.eqb_eq in Hv. exact Hv.
Qed.

(** A digit string is its stripped form followed by zeros. *)
Lemma strip_zeros_spec (ds : string) :
  exists n, ds = strip_zeros ds +:+ zeros n.
Proof.
  induction ds as [|c ds (n & IH)]; [exists 0%nat; reflexivity |].
  cbn [strip_zeros]. destruct (strip_zeros ds) as [|c' rest] eqn:Hs.
  - destruct (Ascii.eqb_spec c "0") as [->|Hne].
    + exists (S n). rewrite IH at 1. reflexivity.
    + exists n. rewrite IH at 1. reflexivity.
  - exists n. rewrite IH at 1. reflexivity.
Qed.

Lemma zeros_length (n : nat) : String.length (zeros n) = n.
Proof. induction n as [|n IH]; simpl; [reflexivity | f_equal; exact IH]. Qed.

Lemma strip_zeros_length (ds ds' : string) :
  strip_zeros ds = strip_zeros ds' ->
  String.length ds = String.length ds' -> ds = ds'.
Proof.
  intros Hs Hl.
  destruct (strip_zeros_spec ds) as (n & Hn), (strip_zeros_spec ds') as (n' & Hn').
  rewrite Hn, Hn' in Hl |- *. rewrite !length_append, !zeros_length, Hs in Hl.
  rewrite Hs. f_equal. f_equal. lia.
Qed.

Lemma strip_zeros_digits (ds : string) :
  all_chars is_digit ds = true -> all_chars is_digit (strip_zeros ds) = true.
Proof.
  intros Hd. destruct (strip_zeros_spec ds) as (n & Hn).
  rewrite Hn, all_chars_append in Hd. apply andb_prop in Hd as [Hd _]. exact Hd.
Qed.

Lemma exponent_inj (ds ds' : string) :
  decimal (Z.of_nat (String.length ds) - 1) = decimal (Z.of_nat (String.length ds') - 1) ->
  String.length ds = String.length ds'.
Proof. intros E%decimal_inj. lia. Qed.

(** The exponent form is told from a run of digits by its [e], and gives
    the digits and their number back. *)
Lemma exponential_one_not_digits (d : ascii) (x : string) :
  all_chars is_digit (String d ("e+" +:+ x)) = false.
Proof.
  change ("e+" +:+ x) with (String "e" (String "+" x)). cbn [all_chars].
  change (is_digit "e") with false. apply andb_false_r.
Qed.

Lemma exponential_more_not_digits (d : ascii) (r x : string) :
  all_chars is_digit (String d ("." +:+ r +:+ "e+" +:+ x)) = false.
Proof.
  change ("." +:+ r +:+ "e+" +:+ x) with (String "." (r +:+ "e+" +:+ x)).
  cbn [all_chars]. change (is_digit ".") with false. apply andb_false_r.
Qed.

Lemma exponential_inj (ds ds' : string) :
  all_chars is_digit ds = true -> all_chars is_digit ds' = true ->
  exponential ds = exponential ds' -> ds = ds'.
Proof.
  intros Hd Hd'. unfold exponential.
  pose proof (strip_zeros_digits ds Hd) as Hs.
  pose proof (strip_zeros_digits ds' Hd') as Hs'.
  destruct (strip_zeros ds) as [|d [|c rest]] eqn:E;
    destruct (strip_zeros ds') as [|d' [|c' rest']] eqn:E'.
  - trivial.
  - intros ->. rewrite exponential_one_not_digits in Hd. discriminate.
  - intros ->. rewrite exponential_more_not_digits in Hd. discriminate.
  - intros <-. rewrite exponential_one_not_digits in Hd'. discriminate.
  - intros [= -> He%append_cancel_l%exponent_inj].
    apply strip_zeros_length; [congruence | exact He].
  - intros [=].
  - intros <-. rewrite exponential_more_not_digits in Hd'. discriminate.
  - intros [=].
  - intros [= -> -> He].
    cbn [all_chars] in Hs, Hs'.
    apply andb_prop in Hs as [_ [_ Hs]%andb_prop].
    apply andb_prop in Hs' as [_ [_ Hs']%andb_prop].
    apply span_unique with (p := is_digit) in He as [Hr He]; try assumption;
      try reflexivity.
    apply append_cancel_l, exponent_inj in He.
    apply strip_zeros_length; [congruence | exact He].
Qed.

(** What is printed determines the digits chosen. *)
Lemma print_inj (v v' : Z) : 0 <= v -> 0 <= v' -> print v = print v' -> v = v'.
Proof.
  intros Hv Hv'. unfold print.
  destruct (decimal_digits v Hv) as [Hd _], (decimal_digits v' Hv') as [Hd' _].
  assert (Hmixed : forall ds ds',
             all_chars is_digit ds = true -> all_chars is_digit ds' = true ->
             (String.length ds <= 21)%nat -> (21 < String.length ds')%nat ->
             ds <> exponential ds').
  { intros ds ds' H1 H2 Hl Hl' E. unfold exponential in E.
    destruct (strip_zeros ds') as [|d [|c rest]].
    - subst ds'. lia.
    - subst ds. rewrite exponential_one_not_digits in H1. discriminate.
    - subst ds. rewrite exponential_more_not_digits in H1. discriminate. }
  destruct (Nat.leb_spec (String.length (decimal v)) 21),
           (Nat.leb_spec (String.length (decimal v')) 21); intros E.
  - apply decimal_inj. exact E.
  - exfalso. eapply Hmixed; [exact Hd | exact Hd' | | | exact E]; lia.
  - exfalso. symmetry in E. eapply Hmixed; [exact Hd' | exact Hd | | | exact E]; lia.
  - apply decimal_inj. apply exponential_inj; assumption.
Qed.

Lemma print_head (v : Z) :
  0 <= v -> exists c rest, print v = String c rest /\ is_digit c = true.
Proof.
  intros Hv. destruct (decimal_digits v Hv) as [Hd Hne]. unfold print.
  assert (Hds : exists c rest, decimal v = String c rest /\ is_digit c = true).
  { destruct (decimal v) as [|c rest]; [contradiction |].
    cbn [all_chars] in Hd. apply andb_prop in Hd as [Hc _]. eauto. }
  destruct (_ <=? _)%nat; [exact Hds |].
  unfold exponential. pose proof (strip_zeros_digits _ Hd) as Hs.
  destruct (strip_zeros (decimal v)) as [|d [|c rest]]; [exact Hds | |];
    cbn [all_chars] in Hs; apply andb_prop in Hs as [Hc _]; eauto.
Qed.

(** [toString] is injective on JavaScript numbers: the text reads back as
    the number. *)
Lemma toString_inj (a b : Z) :
  Binary64.representable a -> Binary64.representable b ->
  toString a = toString b -> a = b.
Proof.
  intros Ha%representable_abs%shortest_round Hb%representable_abs%shortest_round.
  pose proof (shortest_nonneg (Z.abs a) (Z.abs_nonneg a)) as Hva.
  pose proof (shortest_nonneg (Z.abs b) (Z.abs_nonneg b)) as Hvb.
  unfold toString.
  destruct (print_head _ Hva) as (ca & ra & Hpa & Hca).
  destruct (print_head _ Hvb) as (cb & rb & Hpb & Hcb).
  destruct (Z.ltb_spec a 0), (Z.ltb_spec b 0); intros E.
  - apply append_cancel_l, print_inj in E; [|assumption..].
    rewrite E in Ha. lia.
  - exfalso. rewrite Hpb in E. injection E as <- _. discriminate.
  - exfalso. rewrite Hpa in E. injection E as -> _. discriminate.
  - apply print_inj in E; [|assumption..]. rewrite E in Ha. lia.
Qed.

(** What [toString] prints, on numbers on either side of 2^53 and of
    10^21. *)
Example toString_samples :
  toString 0 = "0" /\ toString (-15) = "-15" /\
  toString 1700000000004 = "1700000000004" /\
  toString 9007199254740992 = "9007199254740992" /\
  toString (-9007199254740994) = "-9007199254740994" /\
  toString 1152921504606846976 = "1152921504606847000" /\
  toString 18446744073709551616 = "18446744073709552000" /\
  toString 999999999999999868928 = "999999999999999900000" /\
  toString 1000000000000000000000 = "1e+21" /\
  toString 1180591620717411303424 = "1.1805916207174113e+21" /\
  toString 99999999999999991611392 = "1e+23".
Proof. vm_compute. repeat split. Qed.

Lemma toString_numeral (n : Z) : all_chars is_numeral (toString n) = true.
Proof.
  pose proof (shortest_nonneg (Z.abs n) (Z.abs_nonneg n)) as Hv.
  destruct (decimal_digits _ Hv) as [Hd Hne].
  assert (Hlen : (1 <= String.length (decimal (shortest (Z.abs n))))%nat).
  { destruct (decimal (shortest (Z.abs n))); [contradiction | cbn; lia]. }
  assert (Hn : forall s, all_chars is_digit s = true -> all_chars is_numeral s = true).
  { intros s. apply all_chars_impl. intros c Hc. unfold is_numeral. rewrite Hc. reflexivity. }
  unfold toString. rewrite all_chars_append.
  apply andb_true_intro. split; [destruct (n <? 0); reflexivity |].
  unfold print. destruct (_ <=? _)%nat; [apply Hn; exact Hd |].
  unfold exponential. pose proof (strip_zeros_digits _ Hd) as Hs.
  set (e := decimal (_ - 1)).
  assert (He : all_chars is_numeral e = true).
  { apply Hn. apply decimal_digits. lia. }
  destruct (strip_zeros (decimal (shortest (Z.abs n)))) as [|d [|c rest]].
  - apply Hn. exact Hd.
  - change (String d ("e+" +:+ e)) with (String d "e+" +:+ e).
    rewrite all_chars_append, He. cbn [all_chars] in Hs |- *.
    apply andb_prop in Hs as [Hc _]. unfold is_numeral at 1. rewrite Hc. reflexivity.
  - change (String d ("." +:+ String c rest +:+ "e+" +:+ e))
      with (String d "." +:+ (String c rest +:+ ("e+" +:+ e))).
    rewrite !all_chars_append, He.
    change (all_chars is_digit (String d (String c rest)))
      with (is_digit d && all_chars is_digit (String c rest)) in Hs.
    apply andb_prop in Hs as [Hc Hs].
    rewrite (Hn _ Hs). cbn [all_chars]. unfold is_numeral at 1. rewrite Hc. reflexivity.
Qed.

(** ** Reading JSON text back *)

(** [JSON.escape] is a prefix code: the character can be read back from
    the front of whatever its escape is followed by. *)
Lemma unescape_escape (c : ascii) (rest : string) :
  unescape (JSON.escape c +:+ rest) = Some (c, rest).
Proof.
  destruct c as [[] [] [] [] [] [] [] []]; reflexivity.
Qed.

Lemma escape_all_split (s s' r r' : string) :
  JSON.escape_all s +:+ String JSON.dquote r
  = JSON.escape_all s' +:+ String JSON.dquote r' ->
  s = s' /\ r = r'.
Proof.
  revert s'. induction s as [|c s IH]; intros [|c' s'] E.
  - injection E as ->. split; reflexivity.
  - exfalso. cbn [JSON.escape_all] in E. rewrite append_assoc in E.
    pose proof (f_equal unescape E) as U. rewrite unescape_escape in U.
    injection U as <- _. discriminate E.
  - exfalso. cbn [JSON.escape_all] in E. rewrite append_assoc in E.
    pose proof (f_equal unescape E) as U. rewrite unescape_escape in U.
    injection U as -> _. discriminate E.
  - cbn [JSON.escape_all] in E. rewrite !append_assoc in E.
    apply (f_equal unescape) in E. rewrite !unescape_escape in E.
    injection E as -> E. destruct (IH s' E) as [-> ->]. split; reflexivity.
Qed.

(** A quoted string can be read off the front of a text in one way only. *)
Lemma quote_split (s s' r r' : string) :
  JSON.quote s +:+ r = JSON.quote s' +:+ r' -> s = s' /\ r = r'.
Proof.
  unfold JSON.quote. intros E.
  change (String JSON.dquote ((JSON.escape_all s +:+ String JSON.dquote "") +:+ r)
          = String JSON.dquote ((JSON.escape_all s' +:+ String JSON.dquote "") +:+ r')) in E.
  injection E as E. rewrite !append_assoc in E. exact (escape_all_split _ _ _ _ E).
Qed.

(** So can a numeral, when what follows does not go on with one. *)
Lemma toString_split (a a' : Z) (r r' : string) :
  Binary64.representable a -> Binary64.representable a' ->
  stops is_numeral r -> stops is_numeral r' ->
  toString a +:+ r = toString a' +:+ r' -> a = a' /\ r = r'.
Proof.
  intros Ha Ha' Hr Hr' E.
  apply span_unique with (p := is_numeral) in E as [E ->];
    try assumption; try apply toString_numeral.
  split; [apply toString_inj; assumption | reflexivity].
Qed.

(** [JSON.stringify] sees a transaction through its [toJSON()]. *)
Lemma stringify_transaction (t : Transaction.t) :
  JSON.stringify (Transaction.toJSON t) = transaction_text t.
Proof.
  destruct t as [from to value ts [sig|]];
    unfold Transaction.toJSON, transaction_text;
    cbn [Transaction.sender Transaction.recipient Transaction.amount
         Transaction.timestamp Transaction.signature app];
    cbn [JSON.stringify map String.concat];
    rewrite !append_assoc; reflexivity.
Qed.

(** The text of a transaction can be read off the front of a text in one
    way only. *)
Lemma transaction_text_split (t t' : Transaction.t) (r r' : string) :
  transaction_numbers t -> transaction_numbers t' ->
  transaction_text t +:+ r = transaction_text t' +:+ r' -> t = t' /\ r = r'.
Proof.
  intros [Ha Hts] [Ha' Hts'].
  destruct t as [from to value ts sig], t' as [from' to' value' ts' sig'].
  unfold transaction_text.
  cbn [Transaction.sender Transaction.recipient Transaction.amount
       Transaction.timestamp Transaction.signature] in *.
  rewrite !append_assoc. intros E.
  do 3 apply append_cancel_l in E.
  apply quote_split in E as [-> E].
  do 3 apply append_cancel_l in E.
  apply quote_split in E as [-> E].
  do 3 apply append_cancel_l in E.
  apply toString_split in E as [-> E]; try assumption; try reflexivity.
  do 3 apply append_cancel_l in E.
  destruct sig as [sig|], sig' as [sig'|]; rewrite ?append_assoc in E;
    apply toString_split in E as [-> E]; try assumption; try reflexivity.
  - do 3 apply append_cancel_l in E.
    apply quote_split in E as [-> E].
    apply (append_cancel_l "}") in E. subst r'. split; reflexivity.
  - discriminate E.
  - discriminate E.
  - apply (append_cancel_l "}") in E. subst r'. split; reflexivity.
Qed.

(** The text of an array of transactions determines the transactions. *)
Lemma transactions_text_inj (txs txs' : list Transaction.t) :
  Forall transaction_numbers txs -> Forall transaction_numbers txs' ->
  JSON.stringify (JArr (map json_of txs)) = JSON.stringify (JArr (map json_of txs')) ->
  txs = txs'.
Proof.
  intros Hn Hn'. cbn [JSON.stringify]. intros E.
  apply append_cancel_l in E. rewrite !map_map in E.
  revert txs' Hn' E.
  induction Hn as [|t txs Ht Hn IH]; intros txs' Hn' E;
    destruct Hn' as [|t' txs' Ht' Hn'].
  - reflexivity.
  - exfalso. cbn [map] in E. unfold json_of, Transaction_JsonValue in E.
    rewrite stringify_transaction in E.
    destruct txs'; discriminate E.
  - exfalso. cbn [map] in E. unfold json_of, Transaction_JsonValue in E.
    rewrite stringify_transaction in E.
    destruct txs; discriminate E.
  - assert (Hcons : forall (x : Transaction.t) (xs : list Transaction.t),
               String.concat "," (map (fun y => JSON.stringify (json_of y)) (x :: xs))
               +:+ "]"
               = transaction_text x +:+
                 match xs with
                 | [] => "]"
                 | _ :: _ =>
                     "," +:+ String.concat ","
                               (map (fun y => JSON.stringify (json_of y)) xs) +:+ "]"
                 end).
    { intros x [|y xs]; cbn [map String.concat];
        unfold json_of at 1, Transaction_JsonValue at 1;
        rewrite stringify_transaction, ?append_assoc; reflexivity. }
    rewrite !Hcons in E.
    apply transaction_text_split in E as [-> E]; try assumption.
    f_equal. destruct txs as [|y txs], txs' as [|y' txs'].
    + reflexivity.
    + discriminate E.
    + discriminate E.
    + apply append_cancel_l in E. apply IH; assumption.
Qed.

(** ** Block digests *)

Ltac block_fields :=
  unfold Block.set_index, Block.set_timestamp, Block.set_transactions,
         Block.set_previousHash, Block.set_nonce, Block.set_hash;
  cbn [Block.index Block.timestamp Block.transactions Block.previousHash
       Block.nonce Block.hash].

Section BlockFacts.
Context {T : Type} `{JsonValue T}.

Lemma calculateHash_set_hash (h : string) (b : Block.t T) :
  Block.calculateHash (Block.set_hash h b) = Block.calculateHash b.
Proof. reflexivity. Qed.

Lemma new_hash (i ts : Z) (txs : list T) (prev : string) (n : Z) :
  Block.hash (Block.new i ts txs prev n)
  = Block.calculateHash (Block.new i ts txs prev n).
Proof. reflexivity. Qed.

(** ** The mining loop *)

(** What a successful search leaves behind. *)
Lemma search_found (fuel : nat) (target : string) (tried : Z) (b b' : Block.t T)
    (h : string) (tried' : Z) :
  Miner.search fuel target tried b = (Some (h, tried'), b') ->
  startsWith h target = true /\
  b' = Block.set_hash h (Block.set_nonce (Block.nonce b') b) /\
  h = Block.calculateHash b'.
Proof.
  revert tried b.
  induction fuel as [|fuel IH]; intros tried b; cbn [Miner.search]; [discriminate |].
  destruct (startsWith (Block.calculateHash b) target) eqn:Hs.
  - intros [= <- <- <-]. destruct b; cbn. repeat split. exact Hs.
  - intros Hrec. apply IH in Hrec as (Hp & Hb & Hh).
    split; [exact Hp |]. split; [|exact Hh].
    rewrite Hb at 1. destruct b; reflexivity.
Qed.

(** More fuel does not change the result of a search that succeeded. *)
Lemma search_fuel_mono (fuel fuel' : nat) (target : string) (tried : Z)
    (b b' : Block.t T) (r : string * Z) :
  (fuel <= fuel')%nat ->
  Miner.search fuel target tried b = (Some r, b') ->
  Miner.search fuel' target tried b = (Some r, b').
Proof.
  revert fuel' tried b.
  induction fuel as [|fuel IH]; intros fuel' tried b Hle; cbn [Miner.search];
    [discriminate |].
  destruct fuel' as [|fuel']; [lia |]. cbn [Miner.search].
  destruct (startsWith (Block.calculateHash b) target); [trivial |].
  apply IH. lia.
Qed.

(** The nonce stops at 2^53, where [nonce++] gives 2^53 back: a search that
    gets there with a digest that does not qualify never returns. *)
Lemma search_stuck (fuel : nat) (target : string) (tried : Z) (b : Block.t T) :
  Block.nonce b = Binary64.limit ->
  startsWith (Block.calculateHash b) target = false ->
  fst (Miner.search fuel target tried b) = None.
Proof.
  intros Hn Hs. revert tried.
  induction fuel as [|fuel IH]; intros tried; cbn [Miner.search]; [reflexivity |].
  rewrite Hs, Hn.
  replace (Block.set_nonce (Binary64.add Binary64.limit 1) b) with b; [apply IH |].
  destruct b; cbn in Hn; subst. reflexivity.
Qed.

(** From a nonce between -2^53 and 2^53 the search goes through the
    integers one by one, and counts them as long as the count stays below
    2^53. *)
Lemma search_exact (fuel : nat) (target : string) (tried : Z) (b b' : Block.t T)
    (h : string) (tried' : Z) :
  Miner.search fuel target tried b = (Some (h, tried'), b') ->
  - Binary64.limit <= Block.nonce b <= Binary64.limit ->
  Block.nonce b <= Block.nonce b' <= Binary64.limit /\
  (0 <= tried -> tried + (Block.nonce b' - Block.nonce b) < Binary64.limit ->
   tried' = tried + (Block.nonce b' - Block.nonce b) + 1).
Proof.
  revert tried b.
  induction fuel as [|fuel IH]; intros tried b; cbn [Miner.search]; [discriminate |].
  destruct (startsWith (Block.calculateHash b) target) eqn:Hs.
  - intros [= <- <- <-] Hn. cbn [Block.nonce Block.set_hash].
    split; [lia |]. intros H0 Hlt. rewrite add_exact by lia. lia.
  - intros Hrec Hn.
    destruct (Z.eq_dec (Block.nonce b) Binary64.limit) as [Heq|Hne].
    + exfalso. pose proof (search_stuck (S fuel) target tried b Heq Hs) as Hstuck.
      cbn [Miner.search] in Hstuck. rewrite Hs, Hrec in Hstuck. discriminate.
    + rewrite (add_exact (Block.nonce b) 1) in Hrec by lia.
      apply IH in Hrec as [Hle Htried]; cbn [Block.nonce Block.set_nonce] in *; [|lia].
      split; [lia |]. intros H0 Hlt.
      rewrite add_exact in Htried by lia. lia.
Qed.

(** Every nonce the search passed over gives a digest without the target
    prefix. *)
Lemma search_skipped (fuel : nat) (target : string) (tried : Z) (b b' : Block.t T)
    (r : string * Z) (n : Z) :
  Miner.search fuel target tried b = (Some r, b') ->
  - Binary64.limit <= Block.nonce b <= Binary64.limit ->
  Block.nonce b <= n < Block.nonce b' ->
  startsWith (Block.calculateHash (Block.set_nonce n b)) target = false.
Proof.
  revert tried b.
  induction fuel as [|fuel IH]; intros tried b; cbn [Miner.search]; [discriminate |].
  destruct (startsWith (Block.calculateHash b) target) eqn:Hs.
  - intros [= <- <-]. cbn [Block.nonce Block.set_hash]. lia.
  - intros Hrec Hb Hn.
    destruct (decide (n = Block.nonce b)) as [->|Hne].
    + replace (Block.set_nonce (Block.nonce b) b) with b by (destruct b; reflexivity).
      exact Hs.
    + destruct (Z.eq_dec (Block.nonce b) Binary64.limit) as [Heq|Hlim].
      * exfalso. pose proof (search_stuck (S fuel) target tried b Heq Hs) as Hstuck.
        cbn [Miner.search] in Hstuck. rewrite Hs, Hrec in Hstuck. discriminate.
      * rewrite (add_exact (Block.nonce b) 1) in Hrec by lia.
        specialize (IH _ _ Hrec). cbn [Block.nonce Block.set_nonce] in IH.
        replace (Block.set_nonce n b)
          with (Block.set_nonce n (Block.set_nonce (Block.nonce b + 1) b))
          by (destruct b; reflexivity).
        apply IH; lia.
Qed.

(** The search returns as soon as some nonce at or after the current one,
    and within 2^53, gives a digest with the target prefix. *)
Lemma search_complete (n : nat) (target : string) (tried : Z) (b : Block.t T) :
  - Binary64.limit <= Block.nonce b ->
  Block.nonce b + Z.of_nat n <= Binary64.limit ->
  startsWith (Block.calculateHash (Block.set_nonce (Block.nonce b + Z.of_nat n) b))
             target = true ->
  exists r b', Miner.search (S n) target tried b = (Some r, b').
Proof.
  revert tried b.
  induction n as [|n IH]; intros tried b Hlo Hhi Hs.
  - cbn [Miner.search].
    replace (Block.set_nonce (Block.nonce b + Z.of_nat 0) b) with b in Hs
      by (destruct b; block_fields; f_equal; lia).
    rewrite Hs. eauto.
  - change (Miner.search (S (S n)) target tried b)
      with (if startsWith (Block.calculateHash b) target
            then (Some (Block.calculateHash b, Binary64.add tried 1),
                  Block.set_hash (Block.calculateHash b) b)
            else Miner.search (S n) target (Binary64.add tried 1)
                   (Block.set_nonce (Binary64.add (Block.nonce b) 1) b)).
    destruct (startsWith (Block.calculateHash b) target); [eauto |].
    rewrite (add_exact (Block.nonce b) 1) by lia.
    apply IH; cbn [Block.nonce Block.set_nonce]; [lia | lia |].
    replace (Block.set_nonce (Block.nonce b + 1 + Z.of_nat n)
               (Block.set_nonce (Block.nonce b + 1) b))
      with (Block.set_nonce (Block.nonce b + Z.of_nat (S n)) b); [exact Hs |].
    destruct b; block_fields. f_equal. lia.
Qed.

(** What [mine] guarantees when it returns. *)
Lemma mine_returns (fuel : nat) (st et : Z) (m : Miner.t) (b b' : Block.t T)
    (r : Miner.MiningResult) :
  Miner.mine fuel st et m b = (Ok r, b') ->
  exists target,
    repeat_zero (Miner.difficulty m) = Some target /\
    startsWith (Miner.hash r) target = true /\
    b' = Block.set_hash (Miner.hash r) (Block.set_nonce (Miner.nonce r) b) /\
    Miner.hash r = Block.calculateHash b' /\
    Miner.nonce r = Block.nonce b'.
Proof.
  unfold Miner.mine.
  destruct (repeat_zero (Miner.difficulty m)) as [target|] eqn:Ht; [|discriminate].
  destruct (Miner.search fuel target 0 b) as [[[h tried]|] b''] eqn:Hs; [|discriminate].
  intros [= <- <-]. apply search_found in Hs as (Hp & Hb & Hh).
  exists target. cbn. repeat split; assumption.
Qed.

(** [mine] returns as soon as some nonce from the current one on, and
    within 2^53, gives a digest with the required zeros: the loop is a linear
    search. *)
Lemma mine_terminates (st et d : Z) (b : Block.t T) (n : nat) :
  0 <= d ->
  - Binary64.limit <= Block.nonce b ->
  Block.nonce b + Z.of_nat n <= Binary64.limit ->
  startsWith (Block.calculateHash (Block.set_nonce (Block.nonce b + Z.of_nat n) b))
             (zeros (Z.to_nat d)) = true ->
  exists r b', Miner.mine (S n) st et (Miner.mk d) b = (Ok r, b').
Proof.
  intros Hd Hlo Hhi Hs. unfold Miner.mine, repeat_zero. cbn [Miner.difficulty].
  destruct (Z.ltb_spec d 0); [lia |].
  destruct (search_complete n (zeros (Z.to_nat d)) 0 b Hlo Hhi Hs) as ([h tried] & b' & ->).
  eauto.
Qed.

(** More fuel does not change what [mine] returned. *)
Lemma mine_fuel_mono (fuel fuel' : nat) (st et : Z) (m : Miner.t)
    (b b' : Block.t T) (r : Miner.MiningResult) :
  (fuel <= fuel')%nat ->
  Miner.mine fuel st et m b = (Ok r, b') ->
  Miner.mine fuel' st et m b = (Ok r, b').
Proof.
  intros Hle. unfold Miner.mine.
  destruct (repeat_zero (Miner.difficulty m)) as [target|]; [|discriminate].
  destruct (Miner.search fuel target 0 b) as [[[h tried]|] b''] eqn:Hs; [|discriminate].
  rewrite (search_fuel_mono fuel fuel' target 0 b b'' (h, tried) Hle Hs). trivial.
Qed.

End BlockFacts.

(** The loop at the edge of the integers binary64 holds: from the nonce
    2^53 + 2 the next nonce is 2^53 + 4, and from 2^53 the nonce does not
    move, so that [mine] never returns on a block whose digest at 2^53 does not
    qualify. *)
Example mine_past_limit :
  Miner.mine 2 0 0 (Miner.mk 1)
    (Block.new (T := Transaction.t) 0 1700000000000 [] "0" 9007199254740994)
  = (Ok (Miner.mkResult 9007199254740996
           "0559df076fb36eb8cade1688547f67a5069ff6b37683eb486714dfad34757a0b" 2 0),
     Block.mk 0 1700000000000 [] "0" 9007199254740996
       "0559df076fb36eb8cade1688547f67a5069ff6b37683eb486714dfad34757a0b").
Proof. vm_compute. reflexivity. Qed.

Lemma mine_stalls_at_limit (fuel : nat) (startTime endTime : Z) :
  fst (Miner.mine fuel startTime endTime (Miner.mk 1)
         (Block.new (T := Transaction.t) 0 1700000000000 [] "0" 9007199254740992))
  = OutOfFuel.
Proof.
  unfold Miner.mine. cbn [Miner.difficulty repeat_zero Z.ltb Z.compare].
  pose proof (search_stuck fuel (zeros (Z.to_nat 1)) 0
                (Block.new (T := Transaction.t) 0 1700000000000 [] "0" 9007199254740992)
                eq_refl ltac:(vm_compute; reflexivity)) as Hstuck.
  destruct (Miner.search fuel _ 0 _) as [[[h tried]|] b']; [discriminate | reflexivity].
Qed.

(** C3. Whenever [Miner.mine(block)] at difficulty [N] returns, the
    returned hash begins with [N] zero characters, [block.hash] has been set
    to that hash, the hash is the digest of the block's index, previousHash,
    timestamp and transactions at the returned nonce, and no field of the
    block other than [nonce] and [hash] has changed. *)
Theorem C3_mine_result_meets_difficulty
    {T : Type} `{JsonValue T} (fuel : nat) (startTime endTime : Z) (miner : Miner.t)
    (block block' : Block.t T) (result : Miner.MiningResult) :
  Miner.mine fuel startTime endTime miner block = (Ok result, block') ->
  begins_with_zeros (Miner.difficulty miner) (Miner.hash result) /\
  Block.hash block' = Miner.hash result /\
  Block.nonce block' = Miner.nonce result /\
  Miner.hash result
  = Block.calculateHash (Block.set_nonce (Miner.nonce result) block) /\
  Block.index block' = Block.index block /\
  Block.timestamp block' = Block.timestamp block /\
  Block.transactions block' = Block.transactions block /\
  Block.previousHash block' = Block.previousHash block.
Proof.
  intros Hm. apply mine_returns in Hm as (target & Ht & Hp & Hb & Hh & _).
  split; [eapply repeat_zero_begins; eassumption |].
  subst block'. rewrite calculateHash_set_hash in Hh.
  repeat split; try reflexivity. exact Hh.
Qed.

Lemma C3_witness :
  Miner.mine 1 1700000000005 1700000000006 (Miner.mk 1)
    (Block.new (T := Transaction.t) 0 1700000000004 [] "0" 0)
  = (Ok (Miner.mkResult 0 (Block.hash genesis0) 1 1), genesis0) /\
  begins_with_zeros 1 (Block.hash genesis0) /\
  Block.hash genesis0 = Block.calculateHash genesis0.
Proof.
  assert (Hm : Miner.mine 1 1700000000005 1700000000006 (Miner.mk 1)
                 (Block.new (T := Transaction.t) 0 1700000000004 [] "0" 0)
               = (Ok (Miner.mkResult 0 (Block.hash genesis0) 1 1), genesis0))
    by (vm_compute; reflexivity).
  split; [exact Hm |].
  destruct (C3_mine_result_meets_difficulty _ _ _ _ _ _ _ Hm) as (Hz & _ & _ & Hd & _).
  split; [exact Hz | exact Hd].
Defined.

(** ** Balances *)

Lemma received_cons (a : string) (tx : Transaction.t) (txs : list Transaction.t) :
  received a (tx :: txs)
  = (if String.eqb (Transaction.recipient tx) a then Transaction.amount tx else 0)
    + received a txs.
Proof.
  unfold received, sum_amounts. cbn [List.filter].
  destruct (String.eqb (Transaction.recipient tx) a); cbn; lia.
Qed.

Lemma sent_cons (a : string) (tx : Transaction.t) (txs : list Transaction.t) :
  sent a (tx :: txs)
  = (if String.eqb (Transaction.sender tx) a then Transaction.amount tx else 0)
    + sent a txs.
Proof.
  unfold sent, sum_amounts. cbn [List.filter].
  destruct (String.eqb (Transaction.sender tx) a); cbn; lia.
Qed.

Lemma received_nonneg (a : string) (txs : list Transaction.t) :
  Forall (fun tx => 0 <= Transaction.amount tx) txs -> 0 <= received a txs.
Proof.
  induction 1 as [|tx txs Htx _ IH]; [unfold received; cbn; lia |].
  rewrite received_cons. destruct (String.eqb _ _); lia.
Qed.

Lemma sent_nonneg (a : string) (txs : list Transaction.t) :
  Forall (fun tx => 0 <= Transaction.amount tx) txs -> 0 <= sent a txs.
Proof.
  induction 1 as [|tx txs Htx _ IH]; [unfold sent; cbn; lia |].
  rewrite sent_cons. destruct (String.eqb _ _); lia.
Qed.

(** The two loops of [getBalanceOfAddress] go through the confirmed
    transactions in chain order. *)
Lemma balance_is_fold (a : string) (l : Blockchain.t Transaction.t) :
  Blockchain.getBalanceOfAddress a l
  = fold_left (Blockchain.credit a) (confirmed l) 0.
Proof.
  unfold Blockchain.getBalanceOfAddress, confirmed. generalize 0.
  induction (Blockchain.chain l) as [|b blocks IH]; intros z;
    cbn [fold_left flat_map]; [reflexivity |].
  rewrite fold_left_app. apply IH.
Qed.

(** As long as the running balance stays within 2^53 no step rounds, and
    the fold is the exact sum. With amounts that are not negative the running
    balance lies between the start less all that is sent and the start plus
    all that is received. *)
Lemma fold_credit_exact (a : string) (txs : list Transaction.t) (balance : Z) :
  Forall (fun tx => 0 <= Transaction.amount tx) txs ->
  - Binary64.limit <= balance - sent a txs ->
  balance + received a txs <= Binary64.limit ->
  fold_left (Blockchain.credit a) txs balance
  = balance + received a txs - sent a txs.
Proof.
  intros Hpos. revert balance.
  induction Hpos as [|tx txs Htx Hpos IH]; intros balance Hlo Hhi; cbn [fold_left].
  - unfold received, sent, sum_amounts. cbn. lia.
  - pose proof (received_nonneg a txs Hpos) as Hr.
    pose proof (sent_nonneg a txs Hpos) as Hs.
    rewrite received_cons in Hhi |- *. rewrite sent_cons in Hlo |- *.
    unfold Blockchain.credit.
    destruct (String.eqb (Transaction.sender tx) a),
             (String.eqb (Transaction.recipient tx) a);
      rewrite ?sub_exact by lia; rewrite ?add_exact by lia;
      rewrite IH by lia; lia.
Qed.

Lemma balance_ignores_pending (a : string) (pending : list Transaction.t)
    (l : Blockchain.t Transaction.t) :
  Blockchain.getBalanceOfAddress a (Blockchain.set_pendingTransactions pending l)
  = Blockchain.getBalanceOfAddress a l.
Proof. reflexivity. Qed.

(** C7, as the code has it. The balance is folded in binary64, in chain
    order. When the amounts of the confirmed transactions are not negative
    and neither what the address receives nor what it sends sums beyond 2^53,
    the balance of the address is the sum of the amounts of the confirmed
    transactions it receives minus the sum of the amounts of the confirmed
    transactions it sends; the pending pool contributes nothing. *)
Theorem C7_balance_law (l : Blockchain.t Transaction.t) (address : string) :
  Forall (fun tx => 0 <= Transaction.amount tx) (confirmed l) ->
  received address (confirmed l) <= Binary64.limit ->
  sent address (confirmed l) <= Binary64.limit ->
  Blockchain.getBalanceOfAddress address l
  = received address (confirmed l) - sent address (confirmed l) /\
  forall pending : list Transaction.t,
    Blockchain.getBalanceOfAddress address
      (Blockchain.set_pendingTransactions pending l)
    = Blockchain.getBalanceOfAddress address l.
Proof.
  intros Hpos Hr Hs. split; [|intros pending; apply balance_ignores_pending].
  rewrite balance_is_fold, fold_credit_exact by (assumption || lia). lia.
Qed.

(** ** Transactions *)

(** [isValid], case by case. *)
Lemma isValid_cases `{EC} (t : Transaction.t) :
  Transaction.isValid t =
  if String.eqb (Transaction.sender t) "" then true
  else if String.eqb (Transaction.sender t) "MINING_REWARD" then true
  else match Transaction.signature t with
       | None => false
       | Some s => if String.eqb s "" then false
                   else ec_verify (Transaction.sender t) (Transaction.calculateHash t) s
       end.
Proof.
  unfold Transaction.isValid, Transaction.signature_missing.
  destruct (String.eqb (Transaction.sender t) ""); [reflexivity |].
  destruct (String.eqb (Transaction.sender t) "MINING_REWARD"); [reflexivity |].
  cbn [orb]. destruct (Transaction.signature t) as [s|]; reflexivity.
Qed.

(** C5, as the code has it. [isValid()] is true when the sender is the
    reward sentinel or the empty string; for any other sender it is false
    when the signature is absent or empty, and otherwise it is the result of
    verifying the signature of the transaction's digest under the sender's
    key. *)
Theorem C5_isValid_by_cases `{EC} (t : Transaction.t) :
  (Transaction.sender t = "MINING_REWARD" \/ Transaction.sender t = "" ->
   Transaction.isValid t = true) /\
  (Transaction.sender t <> "MINING_REWARD" -> Transaction.sender t <> "" ->
   Transaction.signature t = None \/ Transaction.signature t = Some "" ->
   Transaction.isValid t = false) /\
  (Transaction.sender t <> "MINING_REWARD" -> Transaction.sender t <> "" ->
   forall s, Transaction.signature t = Some s -> s <> "" ->
   Transaction.isValid t
   = ec_verify (Transaction.sender t) (Transaction.calculateHash t) s).
Proof.
  rewrite isValid_cases. repeat split.
  - intros [-> | ->]; reflexivity.
  - intros Hr He Hs.
    apply String.eqb_neq in Hr, He. rewrite Hr, He.
    destruct Hs as [-> | ->]; reflexivity.
  - intros Hr He s Hs Hne.
    apply String.eqb_neq in Hr, He, Hne. rewrite Hr, He, Hs, Hne. reflexivity.
Qed.

(** ** Admission to the pending pool *)

Lemma addTransaction_reward `{EC} (t : Transaction.t) (l : Blockchain.t Transaction.t) :
  Transaction.sender t = "MINING_REWARD" ->
  Blockchain.addTransaction t l
  = (Ok true,
     Blockchain.set_pendingTransactions (Blockchain.pendingTransactions l ++ [t]) l).
Proof. intros Hs. unfold Blockchain.addTransaction. rewrite Hs. reflexivity. Qed.

Lemma addTransaction_checked `{EC} (t : Transaction.t) (l : Blockchain.t Transaction.t) :
  Transaction.sender t <> "MINING_REWARD" ->
  Blockchain.addTransaction t l =
  if negb (Transaction.isValid t) then (Ok false, l)
  else if Blockchain.getBalanceOfAddress (Transaction.sender t) l <? Transaction.amount t
       then (Throw InsufficientBalanceError, l)
       else (Ok true,
             Blockchain.set_pendingTransactions
               (Blockchain.pendingTransactions l ++ [t]) l).
Proof.
  intros Hs. apply String.eqb_neq in Hs.
  unfold Blockchain.addTransaction. rewrite Hs. reflexivity.
Qed.

(** A valid transaction whose amount the confirmed balance covers is
    accepted, whoever the sender is. *)
Lemma addTransaction_accepts `{EC} (t : Transaction.t) (l : Blockchain.t Transaction.t) :
  Transaction.isValid t = true ->
  Transaction.amount t <= Blockchain.getBalanceOfAddress (Transaction.sender t) l ->
  Blockchain.addTransaction t l
  = (Ok true,
     Blockchain.set_pendingTransactions (Blockchain.pendingTransactions l ++ [t]) l).
Proof.
  intros Hv Hb.
  destruct (String.eqb (Transaction.sender t) "MINING_REWARD") eqn:Hs.
  - apply String.eqb_eq in Hs. apply addTransaction_reward. exact Hs.
  - apply String.eqb_neq in Hs. rewrite addTransaction_checked by exact Hs.
    rewrite Hv. cbn [negb].
    destruct (Z.ltb_spec (Blockchain.getBalanceOfAddress (Transaction.sender t) l)
                         (Transaction.amount t)); [lia | reflexivity].
Qed.

(** The outcome of [addTransaction] does not depend on the pending pool. *)
Lemma addTransaction_ignores_pending `{EC} (t : Transaction.t)
    (pending : list Transaction.t) (l : Blockchain.t Transaction.t) :
  fst (Blockchain.addTransaction t (Blockchain.set_pendingTransactions pending l))
  = fst (Blockchain.addTransaction t l).
Proof.
  unfold Blockchain.addTransaction. rewrite balance_ignores_pending.
  repeat match goal with |- context [if ?c then _ else _] => destruct c end;
    reflexivity.
Qed.

(** C6. For a transaction that is valid and whose sender is not the reward
    sentinel, [addTransaction] raises InsufficientBalance exactly when the
    confirmed balance of the sender is strictly less than the amount (an
    equal balance is accepted), and when it raises the ledger, and so the
    pending pool, is unchanged. *)
Theorem C6_insufficient_balance_iff `{EC} (t : Transaction.t)
    (l : Blockchain.t Transaction.t) :
  Transaction.sender t <> "MINING_REWARD" ->
  Transaction.isValid t = true ->
  (fst (Blockchain.addTransaction t l) = Throw InsufficientBalanceError <->
   Blockchain.getBalanceOfAddress (Transaction.sender t) l < Transaction.amount t) /\
  (Blockchain.getBalanceOfAddress (Transaction.sender t) l = Transaction.amount t ->
   fst (Blockchain.addTransaction t l) = Ok true) /\
  (fst (Blockchain.addTransaction t l) = Throw InsufficientBalanceError ->
   snd (Blockchain.addTransaction t l) = l /\
   Blockchain.pendingTransactions (snd (Blockchain.addTransaction t l))
   = Blockchain.pendingTransactions l).
Proof.
  intros Hs Hv. rewrite addTransaction_checked by exact Hs.
  rewrite Hv. cbn [negb].
  destruct (Z.ltb_spec (Blockchain.getBalanceOfAddress (Transaction.sender t) l)
                       (Transaction.amount t)) as [Hlt|Hge]; cbn [fst snd].
  - split; [split; [intros _; exact Hlt | reflexivity] |].
    split; [intros Heq; lia | intros _; split; reflexivity].
  - split; [split; [discriminate | lia] |].
    split; [reflexivity | discriminate].
Qed.

(** C9. Two valid transactions of one sender, each within the confirmed
    balance of that sender, are both accepted one after the other and both
    end up in the pending pool, whatever their sum; the check reads the
    chain only. *)
Theorem C9_pending_debits_not_reserved `{EC} (l : Blockchain.t Transaction.t)
    (from : string) (t1 t2 : Transaction.t) :
  Transaction.sender t1 = from ->
  Transaction.sender t2 = from ->
  Transaction.isValid t1 = true ->
  Transaction.isValid t2 = true ->
  Transaction.amount t1 <= Blockchain.getBalanceOfAddress from l ->
  Transaction.amount t2 <= Blockchain.getBalanceOfAddress from l ->
  exists l1 l2,
    Blockchain.addTransaction t1 l = (Ok true, l1) /\
    Blockchain.addTransaction t2 l1 = (Ok true, l2) /\
    Blockchain.pendingTransactions l2
    = (Blockchain.pendingTransactions l ++ [t1; t2])%list /\
    Blockchain.chain l2 = Blockchain.chain l /\
    forall (t : Transaction.t) (pending : list Transaction.t),
      fst (Blockchain.addTransaction t (Blockchain.set_pendingTransactions pending l))
      = fst (Blockchain.addTransaction t l).
Proof.
  intros H1 H2 Hv1 Hv2 Hb1 Hb2. subst from.
  eexists _, _. split; [apply addTransaction_accepts; assumption |].
  split.
  - apply addTransaction_accepts; [assumption |].
    rewrite balance_ignores_pending, H2. exact Hb2.
  - cbn. rewrite <- app_assoc. repeat split.
    intros t pending. apply addTransaction_ignores_pending.
Qed.

(** C10. A transaction whose sender is the string "MINING_REWARD" is
    appended to the pending pool and [addTransaction] returns true, whatever
    the signature check would answer and whatever the chain holds. *)
Theorem C10_reward_sender_bypasses_checks `{EC} (t : Transaction.t)
    (l : Blockchain.t Transaction.t) :
  Transaction.sender t = "MINING_REWARD" ->
  Blockchain.addTransaction t l
  = (Ok true,
     Blockchain.set_pendingTransactions (Blockchain.pendingTransactions l ++ [t]) l).
Proof. apply addTransaction_reward. Qed.

(** ** Block production *)

(** What a call of [minePendingTransactions] that returned has done. *)
Lemma minePendingTransactions_returns (fuel : nat) (now : nat -> Z) (addr : string)
    (l l' : Blockchain.t Transaction.t) (block : Block.t Transaction.t) :
  Blockchain.minePendingTransactions fuel now addr l = (Ok block, l') ->
  exists head result,
    let rewardTx :=
      Transaction.mk "MINING_REWARD" addr (Blockchain.miningReward l) (now 0%nat) None in
    0 < Blockchain.miningReward l /\
    last (Blockchain.chain l) = Some head /\
    Miner.mine fuel (now 2%nat) (now 3%nat) (Miner.mk (Blockchain.difficulty l))
      (Block.new (Z.of_nat (length (Blockchain.chain l))) (now 1%nat)
         (Blockchain.pendingTransactions l ++ [rewardTx]) (Block.hash head) 0)
    = (Ok result, block) /\
    l' = Blockchain.mk (Blockchain.chain l ++ [block]) []
           (Blockchain.difficulty l) (Blockchain.miningReward l).
Proof.
  unfold Blockchain.minePendingTransactions, Transaction.createMiningReward,
    Transaction.new, Blockchain.getLatestBlock.
  destruct (Z.leb_spec (Blockchain.miningReward l) 0) as [Hle|Hlt]; [discriminate |].
  cbn [Blockchain.set_pendingTransactions Blockchain.chain
       Blockchain.pendingTransactions Blockchain.difficulty].
  destruct (last (Blockchain.chain l)) as [head|]; [|discriminate].
  match goal with
  | |- context [Miner.mine ?f ?s ?e ?m ?b] =>
      destruct (Miner.mine f s e m b) as [[result| |] mined] eqn:Hm
  end; try discriminate.
  intros [= <- <-]. exists head, result. cbn zeta. rewrite Hm.
  repeat split. exact Hlt.
Qed.

(** The call returns when the reward is positive, the chain is not empty,
    the difficulty is not negative and the fuel reaches a nonce, within 2^53,
    whose digest has the required zeros. *)
Lemma minePendingTransactions_terminates (now : nat -> Z) (addr : string)
    (l : Blockchain.t Transaction.t) (head : Block.t Transaction.t) (n : nat) :
  0 < Blockchain.miningReward l ->
  0 <= Blockchain.difficulty l ->
  last (Blockchain.chain l) = Some head ->
  Z.of_nat n <= Binary64.limit ->
  startsWith
    (Block.calculateHash
       (Block.set_nonce (Z.of_nat n)
          (Block.new (Z.of_nat (length (Blockchain.chain l))) (now 1%nat)
             (Blockchain.pendingTransactions l ++
              [Transaction.mk "MINING_REWARD" addr (Blockchain.miningReward l)
                 (now 0%nat) None])
             (Block.hash head) 0)))
    (zeros (Z.to_nat (Blockchain.difficulty l))) = true ->
  exists block l',
    Blockchain.minePendingTransactions (S n) now addr l = (Ok block, l').
Proof.
  intros Hr Hd Hl Hn Hs.
  unfold Blockchain.minePendingTransactions, Transaction.createMiningReward,
    Transaction.new, Blockchain.getLatestBlock.
  destruct (Z.leb_spec (Blockchain.miningReward l) 0); [lia |].
  cbn [Blockchain.set_pendingTransactions Blockchain.chain
       Blockchain.pendingTransactions Blockchain.difficulty].
  rewrite Hl.
  match goal with
  | |- context [Miner.mine ?f ?s ?e (Miner.mk ?d) ?b] =>
      destruct (mine_terminates s e d b n Hd) as (r & b' & ->);
        [cbn; unfold Binary64.limit; lia | cbn; exact Hn | exact Hs |]
  end.
  eauto.
Qed.

(** C4. After [minePendingTransactions(addr)] has returned, the pending
    pool is empty, exactly one block has been appended to the chain, that
    block is the one returned, its transactions are the prior pending pool in
    order followed by one reward transaction from "MINING_REWARD" to [addr]
    of the ledger's mining reward, its index is the prior length of the chain
    and its previousHash is the hash of the prior head. *)
Theorem C4_mined_block_contents (fuel : nat) (now : nat -> Z) (addr : string)
    (l l' : Blockchain.t Transaction.t) (block : Block.t Transaction.t) :
  Blockchain.minePendingTransactions fuel now addr l = (Ok block, l') ->
  Blockchain.pendingTransactions l' = [] /\
  Blockchain.chain l' = (Blockchain.chain l ++ [block])%list /\
  (exists rewardTx,
      Block.transactions block
      = (Blockchain.pendingTransactions l ++ [rewardTx])%list /\
      Transaction.sender rewardTx = "MINING_REWARD" /\
      Transaction.recipient rewardTx = addr /\
      Transaction.amount rewardTx = Blockchain.miningReward l) /\
  Block.index block = Z.of_nat (length (Blockchain.chain l)) /\
  (exists head, Blockchain.getLatestBlock l = Some head /\
                Block.previousHash block = Block.hash head).
Proof.
  intros Hm.
  apply minePendingTransactions_returns in Hm as (head & result & _ & Hl & Hm & ->).
  apply mine_returns in Hm as (_ & _ & _ & -> & _).
  cbn. repeat split.
  - eexists. repeat split.
  - exists head. split; [exact Hl | reflexivity].
Qed.

(** ** The ledger invariant *)

(** What the constructor has done when it returned. *)
Lemma new_returns {T : Type} `{JsonValue T} (fuel : nat) (now : nat -> Z)
    (d reward : Z) (l : Blockchain.t T) :
  Blockchain.new fuel now d reward = Ok l ->
  exists result genesis,
    Miner.mine fuel (now 1%nat) (now 2%nat) (Miner.mk d)
      (Block.new 0 (now 0%nat) [] "0" 0) = (Ok result, genesis) /\
    l = Blockchain.mk [genesis] [] d reward.
Proof.
  unfold Blockchain.new, Blockchain.createGenesisBlock.
  cbn [Blockchain.difficulty].
  destruct (Miner.mine fuel (now 1%nat) (now 2%nat) (Miner.mk d)
              (Block.new 0 (now 0%nat) [] "0" 0)) as [[result| |] genesis] eqn:Hm;
    cbn; try discriminate.
  intros [= <-]. eauto.
Qed.

(** [addTransaction] writes the pending pool only. *)
Lemma addTransaction_keeps `{EC} (tx : Transaction.t) (l l' : Blockchain.t Transaction.t)
    (o : outcome bool) :
  Blockchain.addTransaction tx l = (o, l') ->
  Blockchain.chain l' = Blockchain.chain l /\
  Blockchain.difficulty l' = Blockchain.difficulty l /\
  Blockchain.miningReward l' = Blockchain.miningReward l.
Proof.
  unfold Blockchain.addTransaction.
  repeat match goal with |- context [if ?c then _ else _] => destruct c end;
    intros [= <- <-]; repeat split.
Qed.

Lemma invariant_new {T : Type} `{JsonValue T} (fuel : nat) (now : nat -> Z)
    (d reward : Z) (l : Blockchain.t T) :
  Blockchain.new fuel now d reward = Ok l -> ledger_invariant l.
Proof.
  intros Hn. apply new_returns in Hn as (result & genesis & Hm & ->).
  apply mine_returns in Hm as (_ & _ & _ & -> & _).
  unfold ledger_invariant. cbn [Blockchain.chain Blockchain.difficulty].
  split; [discriminate |]. split.
  - eexists. split; [reflexivity |]. split; reflexivity.
  - intros i current previous Hi Hc _.
    destruct i as [|[|i]]; [lia | discriminate | discriminate].
Qed.

Lemma invariant_mine (fuel : nat) (now : nat -> Z) (addr : string)
    (l l' : Blockchain.t Transaction.t) (block : Block.t Transaction.t) :
  ledger_invariant l ->
  Blockchain.minePendingTransactions fuel now addr l = (Ok block, l') ->
  ledger_invariant l'.
Proof.
  intros (Hne & (genesis & Hg & Hg0 & Hgt) & Hlinks) Hm.
  apply minePendingTransactions_returns in Hm as (head & result & _ & Hl & Hm & ->).
  apply mine_returns in Hm as (target & Ht & Hp & Hb & _).
  unfold ledger_invariant. cbn [Blockchain.chain Blockchain.difficulty].
  split; [intros E; apply app_eq_nil in E as [_ E]; discriminate |]. split.
  - exists genesis. split; [|split; assumption].
    rewrite lookup_app_l; [exact Hg |].
    apply lookup_lt_Some in Hg. exact Hg.
  - intros i current previous Hi Hc Hprev.
    destruct (decide (i < length (Blockchain.chain l))%nat) as [Hlt|Hge].
    + rewrite lookup_app_l in Hc by exact Hlt.
      rewrite lookup_app_l in Hprev by lia.
      eapply Hlinks; eassumption.
    + assert (i = length (Blockchain.chain l)) as ->.
      { apply lookup_lt_Some in Hc. rewrite length_app in Hc. cbn in Hc. lia. }
      rewrite lookup_app_r in Hc by lia.
      rewrite Nat.sub_diag in Hc. cbn in Hc. injection Hc as <-.
      rewrite lookup_app_l in Hprev by lia.
      rewrite last_lookup in Hl.
      replace (pred (length (Blockchain.chain l)))
        with (length (Blockchain.chain l) - 1)%nat in Hl by lia.
      rewrite Hl in Hprev. injection Hprev as <-.
      subst block. cbn [Block.set_hash Block.previousHash Block.hash
                        Block.set_nonce Block.new].
      split; [reflexivity |].
      eapply repeat_zero_begins; [exact Ht | exact Hp].
Qed.

Lemma reachable_invariant `{EC} (l : Blockchain.t Transaction.t) :
  reachable l -> ledger_invariant l.
Proof.
  induction 1 as [fuel now d reward l Hn
                 | tx l accepted l' _ IH Ha
                 | fuel now addr l block l' _ IH Hm].
  - eapply invariant_new. exact Hn.
  - apply addTransaction_keeps in Ha as (Hc & Hd & _).
    unfold ledger_invariant in *. rewrite Hc, Hd. exact IH.
  - eapply invariant_mine; eassumption.
Qed.

(** The sample run, step by step. *)
Lemma sample_new : Blockchain.new 1 clockA 1 100 = Ok ledger0.
Proof. vm_compute. reflexivity. Qed.

Lemma sample_mine :
  Blockchain.minePendingTransactions 1 clockB "alice" ledger0 = (Ok block1, ledger1).
Proof. vm_compute. reflexivity. Qed.

Lemma sample_reachable1 : @reachable sample_ec ledger1.
Proof.
  eapply reach_minePendingTransactions; [|exact sample_mine].
  eapply reach_new. exact sample_new.
Qed.

Lemma sample_reachable3 : @reachable sample_ec ledger3.
Proof.
  apply (@reach_addTransaction sample_ec pay70 ledger2 true);
    [|vm_compute; reflexivity].
  apply (@reach_addTransaction sample_ec pay60 ledger1 true);
    [exact sample_reachable1 | vm_compute; reflexivity].
Qed.

(** C1. Every ledger obtained from the constructor, with any difficulty
    and mining reward, through any finite sequence of [addTransaction] and
    [minePendingTransactions] calls that returned has a non-empty chain whose
    first block has previousHash "0" and no transactions, and in which every
    later block carries the hash of its predecessor as previousHash and a
    hash that begins with [difficulty] zero characters. *)
Theorem C1_ledger_invariant `{EC} (l : Blockchain.t Transaction.t) :
  reachable l -> ledger_invariant l.
Proof. apply reachable_invariant. Qed.

Lemma C1_witness : @reachable sample_ec ledger3 /\ ledger_invariant ledger3.
Proof.
  split; [exact sample_reachable3 |].
  exact (@C1_ledger_invariant sample_ec ledger3 sample_reachable3).
Defined.

(** ** Chain validation *)

Section Validation.
Context {T : Type} `{JsonValue T}.

Lemma validate_from_true (target : string) (blocks : list (Block.t T)) (todo i : nat) :
  Blockchain.validate_from target blocks todo i = true <->
  forall (j : nat) current previous,
    (i <= j < i + todo)%nat ->
    blocks !! j = Some current ->
    blocks !! (j - 1)%nat = Some previous ->
    link_ok target previous current.
Proof.
  revert i. induction todo as [|todo IH]; intros i; cbn [Blockchain.validate_from].
  - split; [intros _ j c p Hj; lia | reflexivity].
  - destruct (blocks !! i) as [cur|] eqn:Hc.
    + destruct (blocks !! (i - 1)%nat) as [prev|] eqn:Hp.
      * destruct (String.eqb_spec (Block.hash cur) (Block.calculateHash cur)) as [E1|E1];
          cbn [negb].
        2:{ split; [discriminate |]. intros Hall.
            destruct (Hall i cur prev ltac:(lia) Hc Hp) as (? & _). contradiction. }
        destruct (String.eqb_spec (Block.previousHash cur) (Block.hash prev)) as [E2|E2];
          cbn [negb].
        2:{ split; [discriminate |]. intros Hall.
            destruct (Hall i cur prev ltac:(lia) Hc Hp) as (_ & ? & _). contradiction. }
        destruct (startsWith (Block.hash cur) target) eqn:E3; cbn [negb].
        2:{ split; [discriminate |]. intros Hall.
            destruct (Hall i cur prev ltac:(lia) Hc Hp) as (_ & _ & ?). congruence. }
        rewrite IH. split.
        -- intros Hall j c p Hj Hjc Hjp.
           destruct (decide (j = i)) as [->|Hne].
           ++ rewrite Hc in Hjc. rewrite Hp in Hjp.
              injection Hjc as <-. injection Hjp as <-.
              repeat split; assumption.
           ++ apply (Hall j c p); [lia | assumption | assumption].
        -- intros Hall j c p Hj. apply Hall. lia.
      * apply lookup_ge_None in Hp. apply lookup_lt_Some in Hc. lia.
    + split; [|reflexivity]. intros _ j c p Hj Hjc _.
      apply lookup_ge_None in Hc. apply lookup_lt_Some in Hjc. lia.
Qed.

(** [isChainValid()] answers true exactly when every block after the first
    passes the three checks against its predecessor. *)
Lemma isChainValid_true (l : Blockchain.t T) :
  Blockchain.isChainValid l = Ok true <->
  exists target,
    repeat_zero (Blockchain.difficulty l) = Some target /\
    forall (j : nat) current previous,
      (1 <= j)%nat ->
      Blockchain.chain l !! j = Some current ->
      Blockchain.chain l !! (j - 1)%nat = Some previous ->
      link_ok target previous current.
Proof.
  unfold Blockchain.isChainValid.
  destruct (repeat_zero (Blockchain.difficulty l)) as [target|].
  - split.
    + intros [= Hv]. exists target. split; [reflexivity |].
      intros j c p Hj Hc Hp.
      eapply validate_from_true; [exact Hv | | exact Hc | exact Hp].
      apply lookup_lt_Some in Hc. lia.
    + intros (target' & [= <-] & Hall). f_equal.
      apply validate_from_true. intros j c p Hj. apply Hall. lia.
  - split; [discriminate | intros (? & ? & _); discriminate].
Qed.

(** When the difficulty is not negative the answer is true or false. *)
Lemma isChainValid_not_true (l : Blockchain.t T) :
  0 <= Blockchain.difficulty l ->
  Blockchain.isChainValid l <> Ok true ->
  Blockchain.isChainValid l = Ok false.
Proof.
  unfold Blockchain.isChainValid, repeat_zero.
  destruct (Z.ltb_spec (Blockchain.difficulty l) 0); [lia |].
  intros _. destruct (Blockchain.validate_from _ _ _ _); congruence.
Qed.

(** A block whose stored hash is not its digest, or which does not carry
    the stored hash of its predecessor, makes [isChainValid()] false, unless
    it is the first block. *)
Lemma isChainValid_detects (l : Blockchain.t T) (j : nat) (current previous : Block.t T) :
  0 <= Blockchain.difficulty l ->
  (1 <= j)%nat ->
  Blockchain.chain l !! j = Some current ->
  Blockchain.chain l !! (j - 1)%nat = Some previous ->
  Block.hash current <> Block.calculateHash current \/
  Block.previousHash current <> Block.hash previous ->
  Blockchain.isChainValid l = Ok false.
Proof.
  intros Hd Hj Hc Hp Hbad. apply isChainValid_not_true; [exact Hd |].
  intros Hv. apply isChainValid_true in Hv as (target & _ & Hall).
  destruct (Hall j current previous Hj Hc Hp) as (E1 & E2 & _).
  destruct Hbad; contradiction.
Qed.

(** The first block is never looked at beyond its stored hash. *)
Lemma isChainValid_ignores_genesis (l : Blockchain.t T) (genesis genesis' : Block.t T)
    (rest : list (Block.t T)) :
  Blockchain.chain l = genesis :: rest ->
  Block.hash genesis' = Block.hash genesis ->
  Blockchain.isChainValid (Blockchain.set_chain (genesis' :: rest) l)
  = Blockchain.isChainValid l.
Proof.
  intros Hc Hh.
  assert (Hiff : forall b, Blockchain.isChainValid (Blockchain.set_chain (genesis' :: rest) l) = Ok b
                           <-> Blockchain.isChainValid l = Ok b).
  { assert (Htrue : Blockchain.isChainValid (Blockchain.set_chain (genesis' :: rest) l) = Ok true
                    <-> Blockchain.isChainValid l = Ok true).
    { rewrite !isChainValid_true. cbn [Blockchain.set_chain Blockchain.chain Blockchain.difficulty].
      rewrite Hc. split; intros (target & Ht & Hall); exists target; (split; [exact Ht |]);
        intros j c p Hj Hjc Hjp; destruct j as [|[|j]]; try lia.
      - cbn in Hjc, Hjp. injection Hjp as <-.
        specialize (Hall 1%nat c genesis' ltac:(lia) Hjc eq_refl).
        unfold link_ok in *. rewrite <- Hh. exact Hall.
      - apply (Hall (S (S j)) c p); [lia | exact Hjc | exact Hjp].
      - cbn in Hjc, Hjp. injection Hjp as <-.
        specialize (Hall 1%nat c genesis ltac:(lia) Hjc eq_refl).
        unfold link_ok in *. rewrite Hh. exact Hall.
      - apply (Hall (S (S j)) c p); [lia | exact Hjc | exact Hjp]. }
    intros [|]; [exact Htrue |].
    unfold Blockchain.isChainValid in *.
    cbn [Blockchain.set_chain Blockchain.chain Blockchain.difficulty] in *.
    destruct (repeat_zero (Blockchain.difficulty l)); [|tauto].
    destruct (Blockchain.validate_from _ (genesis' :: rest) _ _),
             (Blockchain.validate_from _ (Blockchain.chain l) _ _);
      split; intros E; try reflexivity; try discriminate;
      destruct Htrue as [H1 H2]; (specialize (H1 eq_refl) || specialize (H2 eq_refl));
      discriminate. }
  destruct (Blockchain.isChainValid l) as [b| |] eqn:E.
  - apply Hiff. reflexivity.
  - unfold Blockchain.isChainValid in *.
    cbn [Blockchain.set_chain Blockchain.chain Blockchain.difficulty] in *.
    destruct (repeat_zero (Blockchain.difficulty l)); [discriminate | exact E].
  - unfold Blockchain.isChainValid in E.
    destruct (repeat_zero (Blockchain.difficulty l)); discriminate.
Qed.

End Validation.

(** ** Serialized ledgers *)

Lemma map_json_of_json (items : list json) : map json_of items = items.
Proof. unfold json_of, json_JsonValue. apply map_id. Qed.

Lemma calculateHash_at_rest {T : Type} `{JsonValue T} (b : Block.t T) :
  Block.calculateHash (at_rest b) = Block.calculateHash b.
Proof.
  unfold Block.calculateHash, at_rest.
  cbn [Block.index Block.timestamp Block.transactions Block.previousHash Block.nonce].
  rewrite map_json_of_json. reflexivity.
Qed.

Lemma stored_block_toJSON {T : Type} `{JsonValue T} (b : Block.t T) :
  stored_block (Block.toJSON b) = Some (at_rest b).
Proof. reflexivity. Qed.

(** [Block.fromJSON] accepts exactly the serialized blocks whose six fields
    are well typed and whose stored hash is the digest of the other five. *)
Lemma Block_fromJSON_spec (bj : json) :
  Block.fromJSON bj =
  match stored_block bj with
  | Some s => if String.eqb (Block.calculateHash s) (Block.hash s)
              then Ok s else Throw InvalidBlockError
  | None => Throw InvalidBlockError
  end.
Proof.
  unfold Block.fromJSON, stored_block.
  destruct bj as [| | | |items|props]; try reflexivity.
  cbn [JSON.isObject negb JSON.prop].
  repeat match goal with
         | |- context [match ?o with Some _ => _ | None => _ end] =>
             destruct o as [[]|]; try reflexivity
         end.
  unfold Block.new, Block.calculateHash. block_fields.
  match goal with
  | |- context [String.eqb ?a ?b] => destruct (String.eqb_spec a b) as [E|E]
  end; cbn [negb]; [rewrite E|]; reflexivity.
Qed.

Lemma Block_fromJSON_outcome (bj : json) :
  Block.fromJSON bj = Throw InvalidBlockError \/ exists b, Block.fromJSON bj = Ok b.
Proof.
  rewrite Block_fromJSON_spec. destruct (stored_block bj) as [s|]; [|left; reflexivity].
  destruct (String.eqb _ _); eauto.
Qed.

(** ** [map] with a function that may throw *)

Section MapM.
Context {A B : Type} (f : A -> outcome B).

Lemma mapM_cons (x : A) (xs : list A) :
  mapM f (x :: xs) =
  match f x with
  | Ok y => match mapM f xs with
            | Ok ys => Ok (y :: ys)
            | Throw e => Throw e
            | OutOfFuel => OutOfFuel
            end
  | Throw e => Throw e
  | OutOfFuel => OutOfFuel
  end.
Proof. cbn. destruct (f x); reflexivity. Qed.

Lemma mapM_Ok (xs : list A) (ys : list B) :
  mapM f xs = Ok ys <-> Forall2 (fun x y => f x = Ok y) xs ys.
Proof.
  revert ys. induction xs as [|x xs IH]; intros ys.
  - split.
    + intros [= <-]. constructor.
    + intros Hf. inversion Hf. reflexivity.
  - rewrite mapM_cons. split.
    + destruct (f x) as [y| |] eqn:Hx; try discriminate.
      destruct (mapM f xs) as [ys'| |] eqn:Hxs; try discriminate.
      intros [= <-]. constructor; [exact Hx |]. apply IH. reflexivity.
    + intros Hf. inversion Hf as [|x' y xs' ys' Hx Hxs]; subst.
      rewrite Hx. apply IH in Hxs. rewrite Hxs. reflexivity.
Qed.

Lemma mapM_Throw (e : error) (xs : list A) (x : A) :
  (forall a, f a = Throw e \/ exists b, f a = Ok b) ->
  x ∈ xs ->
  f x = Throw e ->
  mapM f xs = Throw e.
Proof.
  intros Hout Hin Hx. induction xs as [|a xs IH]; [inversion Hin |].
  rewrite mapM_cons.
  destruct (Hout a) as [Ha | [b Ha]]; rewrite Ha; [reflexivity |].
  apply elem_of_cons in Hin as [-> | Hin]; [congruence |].
  rewrite (IH Hin). reflexivity.
Qed.

End MapM.

(** ** Loading a ledger *)

Lemma fromJSON_shape_false (fuel : nat) (now : nat -> Z) (j : json) :
  ledger_shape j = false ->
  Blockchain.fromJSON fuel now j = Throw PlainError.
Proof.
  unfold ledger_shape, Blockchain.fromJSON, is_array, is_number.
  destruct (JSON.isObject j); [|reflexivity]. cbn [negb andb].
  destruct (JSON.prop "chain" j) as [[]|]; try reflexivity.
  destruct (JSON.prop "pendingTransactions" j) as [[]|]; try reflexivity.
  destruct (JSON.prop "difficulty" j) as [[]|]; try reflexivity.
  destruct (JSON.prop "miningReward" j) as [[]|]; try reflexivity.
  discriminate.
Qed.

Lemma prop_Some_isObject (name : string) (j v : json) :
  JSON.prop name j = Some v -> JSON.isObject j = true.
Proof. destruct j; cbn; congruence. Qed.

(** Past the shape check: build a ledger, restore the blocks, take the
    pending pool. *)
Lemma fromJSON_shaped (fuel : nat) (now : nat -> Z) (j : json)
    (blocks pending : list json) (d reward : Z) :
  JSON.prop "chain" j = Some (JArr blocks) ->
  JSON.prop "pendingTransactions" j = Some (JArr pending) ->
  JSON.prop "difficulty" j = Some (JNum d) ->
  JSON.prop "miningReward" j = Some (JNum reward) ->
  Blockchain.fromJSON fuel now j =
  match Blockchain.new (T := json) fuel now d reward with
  | Ok _ =>
      match mapM Block.fromJSON blocks with
      | Ok restored => Ok (Blockchain.mk restored pending d reward)
      | Throw e => Throw e
      | OutOfFuel => OutOfFuel
      end
  | Throw e => Throw e
  | OutOfFuel => OutOfFuel
  end.
Proof.
  intros Hc Hp Hd Hr. unfold Blockchain.fromJSON.
  rewrite (prop_Some_isObject _ _ _ Hc), Hc, Hp, Hd, Hr. cbn [negb].
  unfold mbind, outcome_bind.
  destruct (Blockchain.new fuel now d reward) as [fresh| |] eqn:Hn; try reflexivity.
  apply new_returns in Hn as (_ & genesis & _ & ->).
  destruct (mapM Block.fromJSON blocks); reflexivity.
Qed.

Lemma fromJSON_Ok (fuel : nat) (now : nat -> Z) (j : json) (l : Blockchain.t json) :
  Blockchain.fromJSON fuel now j = Ok l ->
  exists blocks,
    JSON.prop "chain" j = Some (JArr blocks) /\
    JSON.prop "pendingTransactions" j = Some (JArr (Blockchain.pendingTransactions l)) /\
    JSON.prop "difficulty" j = Some (JNum (Blockchain.difficulty l)) /\
    JSON.prop "miningReward" j = Some (JNum (Blockchain.miningReward l)) /\
    mapM Block.fromJSON blocks = Ok (Blockchain.chain l).
Proof.
  intros Hl.
  destruct (ledger_shape j) eqn:Hs;
    [|rewrite fromJSON_shape_false in Hl by exact Hs; discriminate].
  unfold ledger_shape, is_array, is_number in Hs.
  destruct (JSON.prop "chain" j) as [[| | | |blocks|]|] eqn:Hc;
    try (rewrite ?andb_false_r in Hs; discriminate).
  destruct (JSON.prop "pendingTransactions" j) as [[| | | |pending|]|] eqn:Hp;
    try (rewrite ?andb_false_r in Hs; discriminate).
  destruct (JSON.prop "difficulty" j) as [[| |d| | |]|] eqn:Hd;
    try (rewrite ?andb_false_r in Hs; discriminate).
  destruct (JSON.prop "miningReward" j) as [[| |reward| | |]|] eqn:Hr;
    try (rewrite ?andb_false_r in Hs; discriminate).
  rewrite (fromJSON_shaped fuel now j blocks pending d reward Hc Hp Hd Hr) in Hl.
  destruct (Blockchain.new fuel now d reward); try discriminate.
  destruct (mapM Block.fromJSON blocks) as [restored| |] eqn:Hm; try discriminate.
  injection Hl as <-. exists blocks. cbn. repeat split. exact Hm.
Qed.

Lemma block_rejected_Throw (bj : json) :
  block_rejected bj -> Block.fromJSON bj = Throw InvalidBlockError.
Proof.
  rewrite Block_fromJSON_spec. intros [-> | (s & -> & Hne)]; [reflexivity |].
  destruct (String.eqb_spec (Block.calculateHash s) (Block.hash s)); congruence.
Qed.

Lemma fromJSON_rejected_block (fuel : nat) (now : nat -> Z) (j : json)
    (blocks pending : list json) (d reward : Z) (fresh : Blockchain.t json) (bj : json) :
  JSON.prop "chain" j = Some (JArr blocks) ->
  JSON.prop "pendingTransactions" j = Some (JArr pending) ->
  JSON.prop "difficulty" j = Some (JNum d) ->
  JSON.prop "miningReward" j = Some (JNum reward) ->
  Blockchain.new fuel now d reward = Ok fresh ->
  bj ∈ blocks ->
  block_rejected bj ->
  Blockchain.fromJSON fuel now j = Throw InvalidBlockError.
Proof.
  intros Hc Hp Hd Hr Hn Hin Hrej.
  rewrite (fromJSON_shaped fuel now j blocks pending d reward Hc Hp Hd Hr), Hn.
  rewrite (mapM_Throw Block.fromJSON InvalidBlockError blocks bj);
    [reflexivity | apply Block_fromJSON_outcome | exact Hin |].
  apply block_rejected_Throw. exact Hrej.
Qed.

(** C8, as the code has it. [Blockchain.fromJSON] fails with a plain
    structural error when the serialized ledger is not an object with an
    array [chain], an array [pendingTransactions] and numbers [difficulty] and
    [miningReward]; it yields no ledger when a serialized block lacks one of
    its six fields with the right type or stores a hash that is not the
    digest recomputed from its other fields, and the failure is InvalidBlock
    once the ledger it first constructs has been built. The elements of the
    transaction arrays and of the pending pool are not inspected: whatever
    they are, a serialized ledger with the four fields whose blocks each have
    their six fields and store their digest loads, as soon as the ledger
    [fromJSON] first constructs has been built. On success the chain, the
    pending pool, the difficulty and the mining reward are those of the
    serialized form, field by field, and every stored hash is the recomputed
    digest. *)
Theorem C8_fromJSON_revalidates_blocks (fuel : nat) (now : nat -> Z) (j : json) :
  (ledger_shape j = false -> Blockchain.fromJSON fuel now j = Throw PlainError) /\
  (forall blocks bj,
      JSON.prop "chain" j = Some (JArr blocks) ->
      bj ∈ blocks ->
      block_rejected bj ->
      (forall l, Blockchain.fromJSON fuel now j <> Ok l) /\
      (forall pending d reward (fresh : Blockchain.t json),
          JSON.prop "pendingTransactions" j = Some (JArr pending) ->
          JSON.prop "difficulty" j = Some (JNum d) ->
          JSON.prop "miningReward" j = Some (JNum reward) ->
          Blockchain.new fuel now d reward = Ok fresh ->
          Blockchain.fromJSON fuel now j = Throw InvalidBlockError)) /\
  (forall blocks pending d reward (fresh : Blockchain.t json) restored,
      JSON.prop "chain" j = Some (JArr blocks) ->
      JSON.prop "pendingTransactions" j = Some (JArr pending) ->
      JSON.prop "difficulty" j = Some (JNum d) ->
      JSON.prop "miningReward" j = Some (JNum reward) ->
      Blockchain.new fuel now d reward = Ok fresh ->
      Forall2 (fun bj b => stored_block bj = Some b /\
                           Block.hash b = Block.calculateHash b)
              blocks restored ->
      Blockchain.fromJSON fuel now j = Ok (Blockchain.mk restored pending d reward)) /\
  (forall l,
      Blockchain.fromJSON fuel now j = Ok l ->
      exists blocks,
        JSON.prop "chain" j = Some (JArr blocks) /\
        JSON.prop "pendingTransactions" j
        = Some (JArr (Blockchain.pendingTransactions l)) /\
        JSON.prop "difficulty" j = Some (JNum (Blockchain.difficulty l)) /\
        JSON.prop "miningReward" j = Some (JNum (Blockchain.miningReward l)) /\
        Forall2 (fun bj b => stored_block bj = Some b /\
                             Block.hash b = Block.calculateHash b)
                blocks (Blockchain.chain l)).
Proof.
  split; [apply fromJSON_shape_false |]. split; [|split].
  - intros blocks bj Hc Hin Hrej. split.
    + intros l Hl. apply fromJSON_Ok in Hl as (blocks' & Hc' & _ & _ & _ & Hm).
      rewrite Hc in Hc'. injection Hc' as <-.
      apply mapM_Ok in Hm.
      apply list_elem_of_lookup in Hin as [i Hi].
      destruct (Forall2_lookup_l _ _ _ _ _ Hm Hi) as (b & _ & Hb).
      rewrite (block_rejected_Throw bj Hrej) in Hb. discriminate.
    + intros pending d reward fresh Hp Hd Hr Hn.
      eapply fromJSON_rejected_block; eassumption.
  - intros blocks pending d reward fresh restored Hc Hp Hd Hr Hn Hall.
    rewrite (fromJSON_shaped fuel now j blocks pending d reward Hc Hp Hd Hr), Hn.
    replace (mapM Block.fromJSON blocks) with (Ok restored : outcome _); [reflexivity |].
    symmetry. apply mapM_Ok. eapply Forall2_impl; [exact Hall |].
    intros bj b [Hs Hh]. cbn beta. rewrite Block_fromJSON_spec, Hs, <- Hh.
    rewrite String.eqb_refl. reflexivity.
  - intros l Hl. apply fromJSON_Ok in Hl as (blocks & Hc & Hp & Hd & Hr & Hm).
    exists blocks. repeat split; try assumption.
    apply mapM_Ok in Hm. eapply Forall2_impl; [exact Hm |].
    intros bj b. cbn beta. rewrite Block_fromJSON_spec.
    destruct (stored_block bj) as [s|]; [|discriminate].
    destruct (String.eqb_spec (Block.calculateHash s) (Block.hash s)); [|discriminate].
    intros [= <-]. split; [reflexivity | congruence].
Qed.

(** ** Tampering *)

Section Tampering.
Context {T : Type} `{JsonValue T}.

(** The in-memory half: the checks of [isChainValid] against one changed
    block. *)
Lemma tamper_detected_in_memory (l : Blockchain.t T) (k : nat) (b b' : Block.t T) :
  Blockchain.isChainValid l = Ok true ->
  Blockchain.chain l !! k = Some b ->
  (k < length (Blockchain.chain l) - 1)%nat ->
  Block.hash b' <> Block.hash b \/
  (1 <= k)%nat /\ (Block.previousHash b' <> Block.previousHash b \/
                   Block.calculateHash b' <> Block.calculateHash b) ->
  Blockchain.isChainValid (Blockchain.set_chain (<[k:=b']> (Blockchain.chain l)) l)
  = Ok false.
Proof.
  intros Hv Hk Hlt Hdet.
  apply isChainValid_true in Hv as (target & Ht & Hall).
  assert (Hd : 0 <= Blockchain.difficulty l).
  { unfold repeat_zero in Ht.
    destruct (Z.ltb_spec (Blockchain.difficulty l) 0); [discriminate | lia]. }
  set (l' := Blockchain.set_chain (<[k:=b']> (Blockchain.chain l)) l).
  assert (Hk' : Blockchain.chain l' !! k = Some b').
  { apply list_lookup_insert_eq. lia. }
  destruct (decide (Block.hash b' = Block.hash b)) as [Hsame|Hdiff].
  - destruct Hdet as [Hh | (Hk1 & Hdet)]; [contradiction |].
    destruct (Blockchain.chain l !! (k - 1)%nat) as [prev|] eqn:Hprev.
    2:{ apply lookup_ge_None in Hprev. lia. }
    destruct (Hall k b prev Hk1 Hk Hprev) as (E1 & E2 & _).
    apply (isChainValid_detects l' k b' prev); try assumption.
    + cbn [l' Blockchain.set_chain Blockchain.chain].
      rewrite list_lookup_insert_ne by lia. exact Hprev.
    + destruct Hdet as [Hp | Hc]; [right; congruence | left; congruence].
  - destruct (Blockchain.chain l !! S k) as [next|] eqn:Hnext.
    2:{ apply lookup_ge_None in Hnext. lia. }
    destruct (Hall (S k) next b ltac:(lia) Hnext) as (_ & E2 & _).
    { replace (S k - 1)%nat with k by lia. exact Hk. }
    apply (isChainValid_detects l' (S k) next b'); try assumption; try lia.
    + cbn [l' Blockchain.set_chain Blockchain.chain].
      rewrite list_lookup_insert_ne by lia. exact Hnext.
    + replace (S k - 1)%nat with k by lia. exact Hk'.
    + right. congruence.
Qed.

(** The at-rest half: the serialized form of a ledger one of whose blocks
    stores a hash that is not its digest does not load. *)
Lemma tamper_detected_at_rest (fuel : nat) (now : nat -> Z) (l : Blockchain.t T)
    (k : nat) (b' : Block.t T) (fresh : Blockchain.t json) :
  Blockchain.chain l !! k = Some b' ->
  Block.hash b' <> Block.calculateHash b' ->
  Blockchain.new fuel now (Blockchain.difficulty l) (Blockchain.miningReward l)
  = Ok fresh ->
  Blockchain.fromJSON fuel now (Blockchain.toJSON l) = Throw InvalidBlockError.
Proof.
  intros Hk Hne Hn.
  eapply (fromJSON_rejected_block fuel now (Blockchain.toJSON l) _ _ _ _ fresh
            (Block.toJSON b')); try reflexivity; try exact Hn.
  - apply list_elem_of_lookup. exists k. rewrite list_lookup_fmap, Hk. reflexivity.
  - right. exists (at_rest b'). split; [apply stored_block_toJSON |].
    rewrite calculateHash_at_rest. exact Hne.
Qed.

End Tampering.

(** Overwriting a field other than [hash] changes the text that is
    digested; overwriting [hash] leaves it as it was. *)
Lemma tampered_data (b b' : Block.t Transaction.t) :
  tampered b b' -> block_numbers b -> block_numbers b' ->
  Block.hash b' <> Block.hash b /\ Block.data b' = Block.data b \/
  Block.hash b' = Block.hash b /\ Block.data b' <> Block.data b.
Proof.
  intros Ht (Hi & Hts & Hn & Htxs) (Hi' & Hts' & Hn' & Htxs').
  destruct b as [i ts txs prev n h].
  destruct Ht as [v Hv | v Hv | v Hv | v Hv | v Hv | v Hv];
    unfold Block.data; block_fields; cbn in *;
    [right | right | right | right | right | left];
    (split; [try reflexivity; try exact Hv |]); try reflexivity; intros E.
  - apply append_cancel_r, toString_inj in E; [contradiction | assumption..].
  - apply (append_cancel_l (toString i)), (append_cancel_l prev) in E.
    apply append_cancel_r, toString_inj in E; [contradiction | assumption..].
  - apply (append_cancel_l (toString i)), (append_cancel_l prev),
      (append_cancel_l (toString ts)) in E.
    apply append_cancel_r, transactions_text_inj in E; [contradiction | assumption..].
  - apply (append_cancel_l (toString i)), append_cancel_r in E. contradiction.
  - apply (append_cancel_l (toString i)), (append_cancel_l prev),
      (append_cancel_l (toString ts)),
      (append_cancel_l (JSON.stringify (JArr (map json_of txs)))) in E.
    apply toString_inj in E; [contradiction | assumption..].
Qed.

(** C2, as the code has it. In a ledger of [N >= 2] blocks, holding
    JavaScript numbers, that [isChainValid()] accepts, overwriting one stored
    field of [chain[k]], [k < N - 1], with a different value makes
    [isChainValid()] return false when [k >= 1], whatever the field, and when
    [k = 0] and the field is [hash]; the other fields of the first block are
    never looked at. When the change is made at rest, to a block that stored
    its own digest, reloading fails with InvalidBlock, whatever the block and
    the field, and there is no ledger to validate. Both hold unless the
    change produces a text with the SHA-256 digest of the original. *)
Theorem C2_tampering_is_detected
    (l : Blockchain.t Transaction.t) (k : nat) (b b' : Block.t Transaction.t) :
  Blockchain.chain l !! k = Some b ->
  tampered b b' ->
  block_numbers b -> block_numbers b' ->
  ~ collide (Block.data b) (Block.data b') ->
  let l' := Blockchain.set_chain (<[k:=b']> (Blockchain.chain l)) l in
  (Blockchain.isChainValid l = Ok true ->
   (2 <= length (Blockchain.chain l))%nat ->
   (k < length (Blockchain.chain l) - 1)%nat ->
   (1 <= k)%nat \/ Block.hash b' <> Block.hash b ->
   Blockchain.isChainValid l' = Ok false) /\
  (forall fuel now (fresh : Blockchain.t json),
      Block.hash b = Block.calculateHash b ->
      Blockchain.new fuel now (Blockchain.difficulty l) (Blockchain.miningReward l)
      = Ok fresh ->
      Blockchain.fromJSON fuel now (Blockchain.toJSON l') = Throw InvalidBlockError).
Proof.
  intros Hk Ht Hb Hb' Hsha l'.
  assert (Hdigest : Block.data b' <> Block.data b ->
                    Block.calculateHash b' <> Block.calculateHash b).
  { intros Hne E. apply Hsha. split; [congruence | symmetry; exact E]. }
  pose proof (tampered_data b b' Ht Hb Hb') as Hcase.
  split.
  - intros Hv _ Hlt Hwhere.
    apply tamper_detected_in_memory with (b := b); try assumption.
    destruct Hcase as [[Hh _] | [_ Hd]]; [left; exact Hh |].
    destruct Hwhere as [Hk1 | Hh]; [|left; exact Hh].
    right. split; [exact Hk1 |]. right. apply Hdigest. exact Hd.
  - intros fuel now fresh Hseal Hn.
    apply (tamper_detected_at_rest fuel now l' k b' fresh); [| | exact Hn].
    + apply list_lookup_insert_eq. apply lookup_lt_Some in Hk. exact Hk.
    + destruct Hcase as [[Hh Hd] | [Hh Hd]].
      * intros E. apply Hh. rewrite E, Hseal.
        change (SHA256.hex (Block.data b') = SHA256.hex (Block.data b)).
        rewrite Hd. reflexivity.
      * rewrite Hh, Hseal. intros E. apply (Hdigest Hd). symmetry. exact E.
Qed.

(** ** Reachable ledgers validate *)

Lemma valid_new {T : Type} `{JsonValue T} (fuel : nat) (now : nat -> Z)
    (d reward : Z) (l : Blockchain.t T) :
  Blockchain.new fuel now d reward = Ok l -> Blockchain.isChainValid l = Ok true.
Proof.
  intros Hn. apply new_returns in Hn as (result & genesis & Hm & ->).
  apply mine_returns in Hm as (target & Ht & _).
  apply isChainValid_true. exists target. split; [exact Ht |].
  intros [|[|j]] c p Hj Hc Hp; [lia | discriminate | discriminate].
Qed.

Lemma valid_mine (fuel : nat) (now : nat -> Z) (addr : string)
    (l l' : Blockchain.t Transaction.t) (block : Block.t Transaction.t) :
  Blockchain.isChainValid l = Ok true ->
  Blockchain.minePendingTransactions fuel now addr l = (Ok block, l') ->
  Blockchain.isChainValid l' = Ok true.
Proof.
  intros Hv Hm. apply isChainValid_true in Hv as (target & Ht & Hall).
  apply minePendingTransactions_returns in Hm as (head & result & _ & Hl & Hm & ->).
  apply mine_returns in Hm as (target' & Ht' & Hp & Hb & Hh & _).
  cbn [Miner.difficulty] in Ht'. rewrite Ht in Ht'. injection Ht' as <-.
  apply isChainValid_true. cbn [Blockchain.chain Blockchain.difficulty].
  exists target. split; [exact Ht |].
  intros j c p Hj Hc Hprev.
  destruct (decide (j < length (Blockchain.chain l))%nat) as [Hlt|Hge].
  - rewrite lookup_app_l in Hc by exact Hlt.
    rewrite lookup_app_l in Hprev by lia.
    eapply Hall; eassumption.
  - assert (j = length (Blockchain.chain l)) as ->.
    { apply lookup_lt_Some in Hc. rewrite length_app in Hc. cbn in Hc. lia. }
    rewrite lookup_app_r in Hc by lia.
    rewrite Nat.sub_diag in Hc. cbn in Hc. injection Hc as <-.
    rewrite lookup_app_l in Hprev by lia.
    rewrite last_lookup in Hl.
    replace (pred (length (Blockchain.chain l)))
      with (length (Blockchain.chain l) - 1)%nat in Hl by lia.
    rewrite Hl in Hprev. injection Hprev as <-.
    unfold link_ok. rewrite <- Hh.
    subst block. block_fields. unfold Block.new. block_fields.
    repeat split. exact Hp.
Qed.

(** Every reachable ledger passes [isChainValid()]. *)
Lemma reachable_valid `{EC} (l : Blockchain.t Transaction.t) :
  reachable l -> Blockchain.isChainValid l = Ok true.
Proof.
  induction 1 as [fuel now d reward l Hn
                 | tx l accepted l' _ IH Ha
                 | fuel now addr l block l' _ IH Hm].
  - eapply valid_new. exact Hn.
  - apply addTransaction_keeps in Ha as (Hc & Hd & _).
    unfold Blockchain.isChainValid in *. rewrite Hc, Hd. exact IH.
  - eapply valid_mine; eassumption.
Qed.

(** The first block of a valid chain can be changed without
    [isChainValid()] noticing, as long as its stored hash is kept. *)
Lemma genesis_tamper_undetected {T : Type} `{JsonValue T}
    (l : Blockchain.t T) (genesis genesis' : Block.t T) :
  Blockchain.chain l !! 0%nat = Some genesis ->
  Block.hash genesis' = Block.hash genesis ->
  Blockchain.isChainValid
    (Blockchain.set_chain (<[0%nat:=genesis']> (Blockchain.chain l)) l)
  = Blockchain.isChainValid l.
Proof.
  intros Hg Hh. destruct (Blockchain.chain l) as [|g rest] eqn:Hc; [discriminate |].
  injection Hg as ->. cbn [list_insert].
  rewrite <- (isChainValid_ignores_genesis l genesis genesis' rest Hc Hh).
  reflexivity.
Qed.

(** ** Minting through the public interface *)

(** A mined block moves the balance of an address by what its transactions
    credit and debit, one after the other. *)
Lemma balance_after_mine (fuel : nat) (now : nat -> Z) (addr a : string)
    (l l' : Blockchain.t Transaction.t) (block : Block.t Transaction.t) :
  Blockchain.minePendingTransactions fuel now addr l = (Ok block, l') ->
  Blockchain.getBalanceOfAddress a l'
  = fold_left (Blockchain.credit a) (Block.transactions block)
      (Blockchain.getBalanceOfAddress a l).
Proof.
  intros Hm.
  apply minePendingTransactions_returns in Hm as (head & result & _ & _ & _ & ->).
  unfold Blockchain.getBalanceOfAddress. cbn [Blockchain.chain].
  rewrite fold_left_app. reflexivity.
Qed.

(** A caller who submits a transaction with sender "MINING_REWARD" to an
    empty pool and has a block mined by someone else credits the recipient
    with the amount, out of nothing: the new balance is the sum, in
    binary64, of the old one and the amount. *)
Lemma reward_sender_mints `{EC} (fuel : nat) (now : nat -> Z) (miner : string)
    (t : Transaction.t) (l l1 l2 : Blockchain.t Transaction.t)
    (block : Block.t Transaction.t) :
  Transaction.sender t = "MINING_REWARD" ->
  Transaction.recipient t <> "MINING_REWARD" ->
  Transaction.recipient t <> miner ->
  Blockchain.pendingTransactions l = [] ->
  Blockchain.addTransaction t l = (Ok true, l1) ->
  Blockchain.minePendingTransactions fuel now miner l1 = (Ok block, l2) ->
  Blockchain.getBalanceOfAddress (Transaction.recipient t) l2
  = Binary64.add (Blockchain.getBalanceOfAddress (Transaction.recipient t) l)
                 (Transaction.amount t).
Proof.
  intros Hs Hr Hm Hp Ha Hmine.
  rewrite (addTransaction_reward t l Hs) in Ha. injection Ha as <-.
  rewrite (balance_after_mine _ _ _ (Transaction.recipient t) _ _ _ Hmine).
  rewrite balance_ignores_pending.
  apply minePendingTransactions_returns in Hmine as (head & result & _ & _ & Hb & _).
  apply mine_returns in Hb as (_ & _ & _ & -> & _).
  cbn [Block.transactions Block.set_hash Block.set_nonce Block.new
       Blockchain.set_pendingTransactions Blockchain.pendingTransactions
       Blockchain.miningReward].
  rewrite Hp. cbn [app fold_left]. unfold Blockchain.credit.
  rewrite Hs. cbn [Transaction.recipient Transaction.sender].
  rewrite String.eqb_refl.
  apply String.eqb_neq in Hr, Hm.
  rewrite String.eqb_sym in Hr. rewrite Hr.
  rewrite String.eqb_sym in Hm. rewrite Hm.
  reflexivity.
Qed.

(** ** The sample run against the properties *)

Lemma sample_valid1 : Blockchain.isChainValid ledger1 = Ok true.
Proof. exact (@reachable_valid sample_ec ledger1 sample_reachable1). Qed.

Lemma sample_balance : Blockchain.getBalanceOfAddress "alice" ledger1 = 100.
Proof. reflexivity. Qed.

Lemma C2_counterexample :
  @reachable sample_ec ledger1 /\
  ledger_invariant ledger1 /\
  length (Blockchain.chain ledger1) = 2%nat /\
  Blockchain.isChainValid ledger1 = Ok true /\
  Blockchain.chain ledger1 !! 0%nat = Some genesis0 /\
  tampered genesis0 genesis_redated /\
  Blockchain.isChainValid
    (Blockchain.set_chain (<[0%nat:=genesis_redated]> (Blockchain.chain ledger1)) ledger1)
  = Ok true /\
  Blockchain.fromJSON 1 clockA
    (Blockchain.toJSON
       (Blockchain.set_chain (<[0%nat:=genesis_redated]> (Blockchain.chain ledger1))
          ledger1))
  = Throw InvalidBlockError.
Proof.
  split; [exact sample_reachable1 |].
  split; [exact (@reachable_invariant sample_ec ledger1 sample_reachable1) |].
  split; [reflexivity |].
  split; [exact sample_valid1 |].
  split; [reflexivity |].
  split; [apply tamper_timestamp; cbn; lia |].
  split.
  - rewrite (genesis_tamper_undetected ledger1 genesis0 genesis_redated);
      [exact sample_valid1 | reflexivity | reflexivity].
  - vm_compute. reflexivity.
Qed.

Lemma sample_mine2 :
  Blockchain.minePendingTransactions 1 clockC "carol" ledger3 = (Ok block2, ledger4).
Proof. vm_compute. reflexivity. Qed.

Lemma sample_reachable4 : @reachable sample_ec ledger4.
Proof.
  eapply reach_minePendingTransactions; [exact sample_reachable3 | exact sample_mine2].
Qed.

Lemma sample_valid4 : Blockchain.isChainValid ledger4 = Ok true.
Proof. exact (@reachable_valid sample_ec ledger4 sample_reachable4). Qed.

Lemma C2_witness :
  Blockchain.chain ledger4 !! 1%nat = Some block1 /\
  tampered block1 block1_redirected /\
  block_numbers block1 /\ block_numbers block1_redirected /\
  ~ collide (Block.data block1) (Block.data block1_redirected) /\
  Blockchain.isChainValid ledger4 = Ok true /\
  Blockchain.isChainValid
    (Blockchain.set_chain (<[1%nat:=block1_redirected]> (Blockchain.chain ledger4)) ledger4)
  = Ok false /\
  Blockchain.fromJSON 1 clockA
    (Blockchain.toJSON
       (Blockchain.set_chain (<[1%nat:=block1_redirected]> (Blockchain.chain ledger4))
          ledger4))
  = Throw InvalidBlockError.
Proof.
  assert (Ht : tampered block1 block1_redirected)
    by (apply tamper_transactions; cbn; discriminate).
  assert (Hb : block_numbers block1)
    by (repeat split; repeat constructor).
  assert (Hb' : block_numbers block1_redirected)
    by (repeat split; repeat constructor).
  assert (Hsha : ~ collide (Block.data block1) (Block.data block1_redirected))
    by (intros [_ E]; vm_compute in E; discriminate E).
  destruct (C2_tampering_is_detected ledger4 1%nat block1 block1_redirected
              eq_refl Ht Hb Hb' Hsha) as [Hmem Hrest].
  split; [reflexivity |]. split; [exact Ht |].
  split; [exact Hb |]. split; [exact Hb' |]. split; [exact Hsha |].
  split; [exact sample_valid4 |].
  split.
  - apply Hmem; [exact sample_valid4 | cbn; lia | cbn; lia |].
    left. lia.
  - apply (Hrest 1%nat clockA (Blockchain.mk [at_rest genesis0] [] 1 100)).
    + vm_compute. reflexivity.
    + vm_compute. reflexivity.
Defined.

Lemma C4_witness :
  Blockchain.minePendingTransactions 1 clockB "alice" ledger0 = (Ok block1, ledger1) /\
  Blockchain.pendingTransactions ledger1 = [] /\
  Blockchain.chain ledger1 = (Blockchain.chain ledger0 ++ [block1])%list /\
  Block.index block1 = 1.
Proof.
  split; [exact sample_mine |].
  destruct (C4_mined_block_contents 1 clockB "alice" ledger0 ledger1 block1 sample_mine)
    as (Hp & Hc & _ & Hi & _).
  split; [exact Hp |]. split; [exact Hc | exact Hi].
Defined.

Lemma C5_counterexample :
  Transaction.sender unsigned_from_nobody <> "MINING_REWARD" /\
  Transaction.signature unsigned_from_nobody = None /\
  @Transaction.isValid reject_all unsigned_from_nobody = true.
Proof. split; [discriminate |]. split; reflexivity. Qed.

Lemma C6_witness :
  Transaction.sender pay101 <> "MINING_REWARD" /\
  @Transaction.isValid sample_ec pay101 = true /\
  Blockchain.getBalanceOfAddress (Transaction.sender pay101) ledger1
  < Transaction.amount pay101 /\
  fst (@Blockchain.addTransaction sample_ec pay101 ledger1)
  = Throw InsufficientBalanceError /\
  snd (@Blockchain.addTransaction sample_ec pay101 ledger1) = ledger1.
Proof.
  assert (Hs : Transaction.sender pay101 <> "MINING_REWARD") by discriminate.
  assert (Hv : @Transaction.isValid sample_ec pay101 = true) by reflexivity.
  assert (Hb : Blockchain.getBalanceOfAddress (Transaction.sender pay101) ledger1
               < Transaction.amount pay101) by (vm_compute; congruence).
  destruct (@C6_insufficient_balance_iff sample_ec pay101 ledger1 Hs Hv)
    as (Hiff & _ & Hkeep).
  apply Hiff in Hb as Hthrow.
  split; [exact Hs |]. split; [exact Hv |]. split; [exact Hb |].
  split; [exact Hthrow | exact (proj1 (Hkeep Hthrow))].
Defined.

Lemma sample_mine_large1 :
  Blockchain.minePendingTransactions 1 clockD "bob"
    (Blockchain.mk [genesis0] [mint_2_53] 1 100)
  = (Ok block1_large, ledger1_large).
Proof. vm_compute. reflexivity. Qed.

Lemma sample_mine_large2 :
  Blockchain.minePendingTransactions 1 clockE "bob"
    (Blockchain.mk [genesis0; block1_large] [pay1; mint1; mint1_again] 1 100)
  = (Ok block2_large, ledger2_large).
Proof. vm_compute. reflexivity. Qed.

Lemma sample_reachable_large : @reachable sample_ec ledger2_large.
Proof.
  eapply reach_minePendingTransactions; [|exact sample_mine_large2].
  apply (@reach_addTransaction sample_ec mint1_again
           (Blockchain.mk [genesis0; block1_large] [pay1; mint1] 1 100) true);
    [|vm_compute; reflexivity].
  apply (@reach_addTransaction sample_ec mint1
           (Blockchain.mk [genesis0; block1_large] [pay1] 1 100) true);
    [|vm_compute; reflexivity].
  apply (@reach_addTransaction sample_ec pay1 ledger1_large true);
    [|vm_compute; reflexivity].
  eapply reach_minePendingTransactions; [|exact sample_mine_large1].
  apply (@reach_addTransaction sample_ec mint_2_53 ledger0 true);
    [|vm_compute; reflexivity].
  eapply reach_new. exact sample_new.
Qed.

Lemma C7_counterexample :
  @reachable sample_ec ledger2_large /\
  Forall (fun tx => 0 < Transaction.amount tx) (confirmed ledger2_large) /\
  Blockchain.getBalanceOfAddress "alice" ledger2_large = 9007199254740992 /\
  received "alice" (confirmed ledger2_large) = 9007199254740994 /\
  sent "alice" (confirmed ledger2_large) = 1 /\
  received "alice" (confirmed ledger2_large) - sent "alice" (confirmed ledger2_large)
  = 9007199254740993.
Proof.
  split; [exact sample_reachable_large |].
  split; [repeat constructor |].
  repeat split; vm_compute; reflexivity.
Qed.

Lemma C7_witness :
  Forall (fun tx => 0 <= Transaction.amount tx) (confirmed ledger4) /\
  received "alice" (confirmed ledger4) <= Binary64.limit /\
  sent "alice" (confirmed ledger4) <= Binary64.limit /\
  received "alice" (confirmed ledger4) = 100 /\
  sent "alice" (confirmed ledger4) = 130 /\
  Blockchain.getBalanceOfAddress "alice" ledger4
  = received "alice" (confirmed ledger4) - sent "alice" (confirmed ledger4).
Proof.
  assert (Hpos : Forall (fun tx => 0 <= Transaction.amount tx) (confirmed ledger4))
    by (repeat constructor; vm_compute; congruence).
  assert (Hr : received "alice" (confirmed ledger4) <= Binary64.limit)
    by (vm_compute; congruence).
  assert (Hs : sent "alice" (confirmed ledger4) <= Binary64.limit)
    by (vm_compute; congruence).
  split; [exact Hpos |]. split; [exact Hr |]. split; [exact Hs |].
  split; [reflexivity |]. split; [reflexivity |].
  exact (proj1 (C7_balance_law ledger4 "alice" Hpos Hr Hs)).
Defined.

Lemma C8_counterexample :
  Transaction.fromJSON 0 malformed_pending = Throw PlainError /\
  Blockchain.fromJSON 1 clockA serialized_with_malformed_pending
  = Ok (Blockchain.mk [at_rest genesis0] [malformed_pending] 1 100).
Proof. split; [reflexivity | vm_compute; reflexivity]. Qed.

Lemma C9_witness :
  Transaction.sender pay60 = "alice" /\
  Transaction.sender pay70 = "alice" /\
  @Transaction.isValid sample_ec pay60 = true /\
  @Transaction.isValid sample_ec pay70 = true /\
  Transaction.amount pay60 <= Blockchain.getBalanceOfAddress "alice" ledger1 /\
  Transaction.amount pay70 <= Blockchain.getBalanceOfAddress "alice" ledger1 /\
  Blockchain.getBalanceOfAddress "alice" ledger1
  < Transaction.amount pay60 + Transaction.amount pay70 /\
  exists l1 l2,
    @Blockchain.addTransaction sample_ec pay60 ledger1 = (Ok true, l1) /\
    @Blockchain.addTransaction sample_ec pay70 l1 = (Ok true, l2) /\
    Blockchain.pendingTransactions l2 = [pay60; pay70].
Proof.
  assert (H60 : Transaction.amount pay60 <= Blockchain.getBalanceOfAddress "alice" ledger1)
    by (vm_compute; congruence).
  assert (H70 : Transaction.amount pay70 <= Blockchain.getBalanceOfAddress "alice" ledger1)
    by (vm_compute; congruence).
  destruct (@C9_pending_debits_not_reserved sample_ec ledger1 "alice" pay60 pay70
              eq_refl eq_refl eq_refl eq_refl H60 H70)
    as (l1 & l2 & H1 & H2 & Hp & _).
  split; [reflexivity |]. split; [reflexivity |].
  split; [reflexivity |]. split; [reflexivity |].
  split; [exact H60 |]. split; [exact H70 |]. split; [vm_compute; congruence |].
  exists l1, l2. split; [exact H1 |]. split; [exact H2 | exact Hp].
Defined.

Lemma C10_witness :
  Transaction.sender minted = "MINING_REWARD" /\
  @Blockchain.addTransaction reject_all minted ledger0
  = (Ok true, Blockchain.mk [genesis0] [minted] 1 100).
Proof.
  split; [reflexivity |].
  exact (@C10_reward_sender_bypasses_checks reject_all minted ledger0 eq_refl).
Defined.

(** * Further properties of the code *)

(** ** Lengths of strings and digests *)

Lemma hex_of_length (n : nat) (x : Z) : String.length (SHA256.hex_of n x) = n.
Proof.
  induction n as [|n IH]; [reflexivity |].
  cbn [SHA256.hex_of String.length]. f_equal. exact IH.
Qed.

(** A digest is 64 characters long. *)
Lemma hex_length (s : string) : String.length (SHA256.hex s) = 64%nat.
Proof. unfold SHA256.hex. rewrite !length_append, !hex_of_length. reflexivity. Qed.

Lemma startsWith_length (s target : string) :
  startsWith s target = true -> (String.length target <= String.length s)%nat.
Proof.
  unfold startsWith. revert s.
  induction target as [|c target IH]; intros s Hp; [cbn; lia |].
  destruct s as [|c' s]; [discriminate |].
  change (String.prefix (String c target) (String c' s))
    with (if ascii_dec c c' then String.prefix target s else false) in Hp.
  destruct (ascii_dec c c'); [|discriminate].
  apply IH in Hp. cbn. lia.
Qed.

(** ** The linear search of the miner *)

(** X1. When [mine] returns on a block that came with a nonce between -2^53
    and 2^53, the nonce it reports is the least one, from the nonce the block
    came with, whose digest begins with the required zeros, and it is at most
    2^53; [attempts] counts the nonces tried, the distance covered plus one,
    as long as that distance is below 2^53; [timeMs] is the difference of the
    two clock readings. *)
Theorem mine_finds_least_nonce {T : Type} `{JsonValue T} (fuel : nat)
    (startTime endTime : Z) (miner : Miner.t) (block block' : Block.t T)
    (result : Miner.MiningResult) :
  Miner.mine fuel startTime endTime miner block = (Ok result, block') ->
  - Binary64.limit <= Block.nonce block <= Binary64.limit ->
  Block.nonce block <= Miner.nonce result <= Binary64.limit /\
  (Miner.nonce result - Block.nonce block < Binary64.limit ->
   Miner.attempts result = Miner.nonce result - Block.nonce block + 1) /\
  Miner.timeMs result = endTime - startTime /\
  forall n : Z,
    Block.nonce block <= n < Miner.nonce result ->
    ~ begins_with_zeros (Miner.difficulty miner)
        (Block.calculateHash (Block.set_nonce n block)).
Proof.
  unfold Miner.mine.
  destruct (repeat_zero (Miner.difficulty miner)) as [target|] eqn:Ht; [|discriminate].
  destruct (Miner.search fuel target 0 block) as [[[h tried]|] b''] eqn:Hs; [|discriminate].
  intros [= <- <-] Hrange. cbn [Miner.nonce Miner.attempts Miner.timeMs].
  pose proof (search_exact _ _ _ _ _ _ _ Hs Hrange) as (Hle & Htried).
  split; [exact Hle |]. split; [intros Hlt; rewrite Htried; lia |].
  split; [reflexivity |].
  intros n Hn Hz. apply begins_repeat_zero in Hz as (target' & Ht' & Hp).
  rewrite Ht in Ht'. injection Ht' as <-.
  rewrite (search_skipped _ _ _ _ _ _ n Hs Hrange Hn) in Hp. discriminate.
Qed.

Lemma mine_finds_least_nonce_witness :
  Miner.mine 2 0 7 (Miner.mk 1) (Block.new (T := Transaction.t) 0 1700000000031 [] "0" 0)
  = (Ok (Miner.mkResult 1
           "0f3e45e89c3f04efe40008c08a33f244b543bd45862576d87bc681045db83d8a" 2 7),
     Block.mk 0 1700000000031 [] "0" 1
       "0f3e45e89c3f04efe40008c08a33f244b543bd45862576d87bc681045db83d8a") /\
  - Binary64.limit
  <= Block.nonce (Block.new (T := Transaction.t) 0 1700000000031 [] "0" 0)
  <= Binary64.limit /\
  ~ begins_with_zeros 1
      (Block.calculateHash
         (Block.set_nonce 0 (Block.new (T := Transaction.t) 0 1700000000031 [] "0" 0))).
Proof.
  assert (Hm : Miner.mine 2 0 7 (Miner.mk 1)
                 (Block.new (T := Transaction.t) 0 1700000000031 [] "0" 0)
               = (Ok (Miner.mkResult 1
                        "0f3e45e89c3f04efe40008c08a33f244b543bd45862576d87bc681045db83d8a"
                        2 7),
                  Block.mk 0 1700000000031 [] "0" 1
                    "0f3e45e89c3f04efe40008c08a33f244b543bd45862576d87bc681045db83d8a"))
    by (vm_compute; reflexivity).
  assert (Hr : - Binary64.limit
               <= Block.nonce (Block.new (T := Transaction.t) 0 1700000000031 [] "0" 0)
               <= Binary64.limit)
    by (split; vm_compute; congruence).
  split; [exact Hm |]. split; [exact Hr |].
  destruct (mine_finds_least_nonce _ _ _ _ _ _ _ Hm Hr) as (_ & _ & _ & Hleast).
  apply (Hleast 0). cbn. lia.
Defined.

(** X2. [mine] returns once the fuel reaches the first qualifying nonce:
    on a block whose nonce is at least -2^53, when the digest at some nonce
    [n] steps after the block's own, and not beyond 2^53, begins with the
    required zeros, every run of more than [n] iterations returns, and all of
    them return the same nonce, hash and attempts. *)
Theorem mine_returns_given_a_solution {T : Type} `{JsonValue T}
    (d : Z) (block : Block.t T) (n : nat) :
  - Binary64.limit <= Block.nonce block ->
  Block.nonce block + Z.of_nat n <= Binary64.limit ->
  begins_with_zeros d
    (Block.calculateHash (Block.set_nonce (Block.nonce block + Z.of_nat n) block)) ->
  exists found h tried block',
    Block.nonce block <= found <= Block.nonce block + Z.of_nat n /\
    forall (fuel : nat) (startTime endTime : Z),
      (n < fuel)%nat ->
      Miner.mine fuel startTime endTime (Miner.mk d) block
      = (Ok (Miner.mkResult found h tried (endTime - startTime)), block').
Proof.
  intros Hlo Hhi Hz. pose proof Hz as [Hd _].
  apply begins_repeat_zero in Hz as (target & Ht & Hp).
  destruct (search_complete n target 0 block Hlo Hhi Hp) as ([h tried] & b' & Hs).
  assert (Hrange : - Binary64.limit <= Block.nonce block <= Binary64.limit) by lia.
  exists (Block.nonce b'), h, tried, b'. split.
  - pose proof (search_exact _ _ _ _ _ _ _ Hs Hrange) as (Hle & _).
    split; [lia |].
    destruct (Z_lt_le_dec (Block.nonce block + Z.of_nat n) (Block.nonce b'))
      as [Hlt|Hge]; [|exact Hge].
    rewrite (search_skipped _ _ _ _ _ _ (Block.nonce block + Z.of_nat n) Hs Hrange) in Hp
      by lia.
    discriminate.
  - intros fuel st et Hfuel. unfold Miner.mine. cbn [Miner.difficulty]. rewrite Ht.
    rewrite (search_fuel_mono (S n) fuel target 0 block b' (h, tried)) by (lia || exact Hs).
    reflexivity.
Qed.

Lemma mine_returns_given_a_solution_witness :
  - Binary64.limit
  <= Block.nonce (Block.new (T := Transaction.t) 0 1700000000031 [] "0" 0) /\
  Block.nonce (Block.new (T := Transaction.t) 0 1700000000031 [] "0" 0) + Z.of_nat 1
  <= Binary64.limit /\
  begins_with_zeros 1
    (Block.calculateHash
       (Block.set_nonce
          (Block.nonce (Block.new (T := Transaction.t) 0 1700000000031 [] "0" 0)
           + Z.of_nat 1)
          (Block.new (T := Transaction.t) 0 1700000000031 [] "0" 0))) /\
  exists found h tried block',
    Block.nonce (Block.new (T := Transaction.t) 0 1700000000031 [] "0" 0) <= found
    <= Block.nonce (Block.new (T := Transaction.t) 0 1700000000031 [] "0" 0)
       + Z.of_nat 1 /\
    forall (fuel : nat) (startTime endTime : Z),
      (1 < fuel)%nat ->
      Miner.mine fuel startTime endTime (Miner.mk 1)
        (Block.new (T := Transaction.t) 0 1700000000031 [] "0" 0)
      = (Ok (Miner.mkResult found h tried (endTime - startTime)), block').
Proof.
  assert (Hlo : - Binary64.limit
                <= Block.nonce (Block.new (T := Transaction.t) 0 1700000000031 [] "0" 0))
    by (vm_compute; congruence).
  assert (Hhi : Block.nonce (Block.new (T := Transaction.t) 0 1700000000031 [] "0" 0)
                + Z.of_nat 1 <= Binary64.limit)
    by (vm_compute; congruence).
  assert (Hz : begins_with_zeros 1
                 (Block.calculateHash
                    (Block.set_nonce
                       (Block.nonce
                          (Block.new (T := Transaction.t) 0 1700000000031 [] "0" 0)
                        + Z.of_nat 1)
                       (Block.new (T := Transaction.t) 0 1700000000031 [] "0" 0)))).
  { apply (repeat_zero_begins 1 "0"); [reflexivity | vm_compute; reflexivity]. }
  split; [exact Hlo |]. split; [exact Hhi |]. split; [exact Hz |].
  exact (mine_returns_given_a_solution 1
           (Block.new (T := Transaction.t) 0 1700000000031 [] "0" 0) 1 Hlo Hhi Hz).
Defined.

(** X3. [mine] returns only at a difficulty between 0 and 64, the length
    of a digest; so does the constructor of the ledger, which mines the
    genesis block. At a difficulty above 64 neither returns, however long
    they run. *)
Theorem mining_needs_difficulty_0_to_64 {T : Type} `{JsonValue T} :
  (forall fuel startTime endTime (miner : Miner.t) (block block' : Block.t T) result,
      Miner.mine fuel startTime endTime miner block = (Ok result, block') ->
      0 <= Miner.difficulty miner <= 64) /\
  (forall fuel now d reward (l : Blockchain.t T),
      Blockchain.new fuel now d reward = Ok l -> 0 <= d <= 64) /\
  (forall fuel now d reward,
      64 < d -> Blockchain.new (T := T) fuel now d reward = OutOfFuel).
Proof.
  assert (Hmine : forall fuel st et (m : Miner.t) (b b' : Block.t T) r,
             Miner.mine fuel st et m b = (Ok r, b') ->
             0 <= Miner.difficulty m <= 64).
  { intros fuel st et m b b' r Hm.
    apply mine_returns in Hm as (target & Ht & Hp & _ & Hh & _).
    unfold repeat_zero in Ht.
    destruct (Z.ltb_spec (Miner.difficulty m) 0); [discriminate |].
    injection Ht as <-. apply startsWith_length in Hp.
    rewrite zeros_length, Hh in Hp. unfold Block.calculateHash in Hp.
    rewrite hex_length in Hp. lia. }
  split; [exact Hmine |]. split.
  - intros fuel now d reward l Hn.
    apply new_returns in Hn as (r & g & Hm & _).
    apply Hmine in Hm. exact Hm.
  - intros fuel now d reward Hd.
    unfold Blockchain.new, Blockchain.createGenesisBlock. cbn [Blockchain.difficulty].
    destruct (Miner.mine fuel (now 1%nat) (now 2%nat) (Miner.mk d)
                (Block.new 0 (now 0%nat) [] "0" 0)) as [[r|e|] b] eqn:Hm.
    + apply Hmine in Hm. cbn in Hm. lia.
    + unfold Miner.mine, repeat_zero in Hm. cbn [Miner.difficulty] in Hm.
      destruct (Z.ltb_spec d 0); [lia |].
      destruct (Miner.search _ _ _ _) as [[[]|] ?]; discriminate.
    + reflexivity.
Qed.

(** X4. Mining a block that [mine] has already sealed returns at the first
    attempt and leaves the block as it is. *)
Theorem mining_a_sealed_block_is_immediate {T : Type} `{JsonValue T}
    (fuel : nat) (startTime endTime : Z) (miner : Miner.t)
    (block block' : Block.t T) (result : Miner.MiningResult) :
  Miner.mine fuel startTime endTime miner block = (Ok result, block') ->
  forall (fuel' : nat) (startTime' endTime' : Z),
    Miner.mine (S fuel') startTime' endTime' miner block'
    = (Ok (Miner.mkResult (Miner.nonce result) (Miner.hash result) 1
             (endTime' - startTime')),
       block').
Proof.
  intros Hm fuel' st' et'.
  apply mine_returns in Hm as (target & Ht & Hp & Hb & Hh & _).
  unfold Miner.mine. rewrite Ht. cbn [Miner.search].
  rewrite <- Hh, Hp.
  replace (Block.set_hash (Miner.hash result) block') with block'
    by (rewrite Hb; reflexivity).
  rewrite Hb at 1. cbn [Block.nonce Block.set_hash Block.set_nonce]. reflexivity.
Qed.

Lemma mining_a_sealed_block_is_immediate_witness :
  Miner.mine 1 1700000000005 1700000000006 (Miner.mk 1)
    (Block.new (T := Transaction.t) 0 1700000000004 [] "0" 0)
  = (Ok (Miner.mkResult 0 (Block.hash genesis0) 1 1), genesis0) /\
  Miner.mine 5 10 12 (Miner.mk 1) genesis0
  = (Ok (Miner.mkResult 0 (Block.hash genesis0) 1 2), genesis0).
Proof.
  assert (Hm : Miner.mine 1 1700000000005 1700000000006 (Miner.mk 1)
                 (Block.new (T := Transaction.t) 0 1700000000004 [] "0" 0)
               = (Ok (Miner.mkResult 0 (Block.hash genesis0) 1 1), genesis0))
    by (vm_compute; reflexivity).
  split; [exact Hm |].
  exact (mining_a_sealed_block_is_immediate _ _ _ _ _ _ _ Hm 4%nat 10 12).
Defined.

(** ** Blocks and transactions at rest *)

Lemma Block_fromJSON_toJSON {T : Type} `{JsonValue T} (b : Block.t T) :
  Block.fromJSON (Block.toJSON b) =
  if String.eqb (Block.calculateHash b) (Block.hash b)
  then Ok (at_rest b) else Throw InvalidBlockError.
Proof.
  rewrite Block_fromJSON_spec, stored_block_toJSON, calculateHash_at_rest.
  reflexivity.
Qed.

Lemma toJSON_at_rest {T : Type} `{JsonValue T} (b : Block.t T) :
  Block.toJSON (at_rest b) = Block.toJSON b.
Proof.
  unfold Block.toJSON, at_rest.
  cbn [Block.index Block.timestamp Block.transactions Block.previousHash
       Block.nonce Block.hash].
  rewrite map_json_of_json. reflexivity.
Qed.

(** X5. A block whose stored hash is its digest, as every block made by
    the constructor or sealed by the miner is, survives serialization:
    [Block.fromJSON] gives back the same fields, and serializing the result
    gives the same JSON again. A block whose stored hash is not its digest
    does not load. *)
Theorem block_round_trip {T : Type} `{JsonValue T} (b : Block.t T) :
  (Block.hash b = Block.calculateHash b ->
   Block.fromJSON (Block.toJSON b) = Ok (at_rest b) /\
   Block.toJSON (at_rest b) = Block.toJSON b) /\
  (Block.hash b <> Block.calculateHash b ->
   Block.fromJSON (Block.toJSON b) = Throw InvalidBlockError) /\
  (forall i ts txs prev n,
      Block.fromJSON (Block.toJSON (Block.new (T := T) i ts txs prev n))
      = Ok (at_rest (Block.new i ts txs prev n))).
Proof.
  rewrite Block_fromJSON_toJSON.
  split; [|split].
  - intros <-. rewrite String.eqb_refl. split; [reflexivity | apply toJSON_at_rest].
  - intros Hne.
    destruct (String.eqb_spec (Block.calculateHash b) (Block.hash b)); congruence.
  - intros i ts txs prev n. rewrite Block_fromJSON_toJSON.
    rewrite <- new_hash, String.eqb_refl. reflexivity.
Qed.

(** X6. A transaction survives serialization exactly when its amount is
    positive: [Transaction.fromJSON] of its [toJSON()] gives back every
    field, the stored timestamp and the signature included, whatever the
    clock reads; with an amount of zero or less the constructor it goes
    through throws InvalidAmount. *)
Theorem transaction_round_trip (now : Z) (t : Transaction.t) :
  Transaction.fromJSON now (Transaction.toJSON t) =
  if Transaction.amount t <=? 0 then Throw InvalidAmountError else Ok t.
Proof.
  destruct t as [from to value ts [sig|]];
    unfold Transaction.fromJSON, Transaction.toJSON, Transaction.new;
    cbn [Transaction.sender Transaction.recipient Transaction.amount
         Transaction.timestamp Transaction.signature app JSON.isObject negb];
    cbn [JSON.prop JSON.assoc String.eqb Ascii.eqb Bool.eqb];
    destruct (value <=? 0); reflexivity.
Qed.

(** X7. What [Transaction.fromJSON] does with any value: it fails with a
    plain error unless the value is an object with strings [sender] and
    [recipient] and numbers [amount] and [timestamp]; it fails with
    InvalidAmount when the stored amount is not positive; otherwise it
    returns the stored fields, a [signature] that is not a string being
    dropped without complaint, and the clock reading never shows in the
    result. *)
Theorem transaction_fromJSON_cases (now : Z) (j : json) :
  (JSON.isObject j = false \/ is_string (JSON.prop "sender" j) = false \/
   is_string (JSON.prop "recipient" j) = false \/
   is_number (JSON.prop "amount" j) = false \/
   is_number (JSON.prop "timestamp" j) = false ->
   Transaction.fromJSON now j = Throw PlainError) /\
  (forall from to value ts,
      JSON.prop "sender" j = Some (JStr from) ->
      JSON.prop "recipient" j = Some (JStr to) ->
      JSON.prop "amount" j = Some (JNum value) ->
      JSON.prop "timestamp" j = Some (JNum ts) ->
      Transaction.fromJSON now j =
      if value <=? 0 then Throw InvalidAmountError
      else Ok (Transaction.mk from to value ts
                 match JSON.prop "signature" j with
                 | Some (JStr sig) => Some sig
                 | _ => None
                 end)).
Proof.
  split.
  - unfold Transaction.fromJSON, is_string, is_number.
    destruct (JSON.isObject j); [|reflexivity]. cbn [negb].
    intros [Hf | Hf]; [discriminate |].
    destruct (JSON.prop "sender" j) as [[]|]; try reflexivity.
    destruct (JSON.prop "recipient" j) as [[]|]; try reflexivity.
    destruct (JSON.prop "amount" j) as [[]|]; try reflexivity.
    destruct (JSON.prop "timestamp" j) as [[]|]; try reflexivity.
    destruct Hf as [Hf | [Hf | [Hf | Hf]]]; discriminate.
  - intros from to value ts Hs Hr Ha Ht. unfold Transaction.fromJSON.
    rewrite (prop_Some_isObject _ _ _ Hs), Hs, Hr, Ha, Ht. cbn [negb].
    unfold Transaction.new. destruct (value <=? 0); [reflexivity |].
    cbn. destruct (JSON.prop "signature" j) as [[]|]; reflexivity.
Qed.

(** ** Ledgers at rest *)

Section Reload.
Context {T : Type} `{JsonValue T}.

Lemma validate_from_at_rest (target : string) (blocks : list (Block.t T)) (todo i : nat) :
  Blockchain.validate_from target (map at_rest blocks) todo i
  = Blockchain.validate_from target blocks todo i.
Proof.
  revert i. induction todo as [|todo IH]; intros i; cbn [Blockchain.validate_from];
    [reflexivity |].
  change (map at_rest blocks) with (at_rest <$> blocks).
  rewrite !list_lookup_fmap.
  destruct (blocks !! i) as [cur|]; [|reflexivity].
  destruct (blocks !! (i - 1)%nat) as [prev|]; [|reflexivity].
  cbn [fmap option_fmap option_map]. rewrite calculateHash_at_rest.
  change (Block.hash (at_rest cur)) with (Block.hash cur).
  change (Block.hash (at_rest prev)) with (Block.hash prev).
  change (Block.previousHash (at_rest cur)) with (Block.previousHash cur).
  change (at_rest <$> blocks) with (map at_rest blocks). rewrite IH. reflexivity.
Qed.

Lemma isChainValid_at_rest (l : Blockchain.t T) :
  Blockchain.isChainValid (ledger_at_rest l) = Blockchain.isChainValid l.
Proof.
  unfold Blockchain.isChainValid, ledger_at_rest.
  cbn [Blockchain.difficulty Blockchain.chain].
  destruct (repeat_zero (Blockchain.difficulty l)); [|reflexivity].
  rewrite length_map, validate_from_at_rest. reflexivity.
Qed.

Lemma toJSON_ledger_at_rest (l : Blockchain.t T) :
  Blockchain.toJSON (ledger_at_rest l) = Blockchain.toJSON l.
Proof.
  unfold Blockchain.toJSON, ledger_at_rest.
  cbn [Blockchain.chain Blockchain.pendingTransactions Blockchain.difficulty
       Blockchain.miningReward].
  rewrite map_json_of_json, map_map.
  rewrite (map_ext _ _ toJSON_at_rest). reflexivity.
Qed.

(** The blocks of a chain go through [Block.fromJSON] one by one. *)
Lemma restore_blocks (blocks : list (Block.t T)) :
  mapM Block.fromJSON (map Block.toJSON blocks) =
  if forallb (fun b => String.eqb (Block.calculateHash b) (Block.hash b)) blocks
  then Ok (map at_rest blocks) else Throw InvalidBlockError.
Proof.
  induction blocks as [|b blocks IH]; [reflexivity |].
  cbn [map forallb]. rewrite mapM_cons, Block_fromJSON_toJSON, IH.
  destruct (String.eqb (Block.calculateHash b) (Block.hash b)); [|reflexivity].
  cbn [andb]. destruct (forallb _ blocks); reflexivity.
Qed.

(** Loading what [toJSON] wrote. *)
Lemma fromJSON_toJSON (fuel : nat) (now : nat -> Z) (l : Blockchain.t T) :
  Blockchain.fromJSON fuel now (Blockchain.toJSON l) =
  match Blockchain.new (T := json) fuel now
          (Blockchain.difficulty l) (Blockchain.miningReward l) with
  | Ok _ =>
      if forallb (fun b => String.eqb (Block.calculateHash b) (Block.hash b))
                 (Blockchain.chain l)
      then Ok (ledger_at_rest l) else Throw InvalidBlockError
  | Throw e => Throw e
  | OutOfFuel => OutOfFuel
  end.
Proof.
  rewrite (fromJSON_shaped fuel now (Blockchain.toJSON l)
             (map Block.toJSON (Blockchain.chain l))
             (map json_of (Blockchain.pendingTransactions l))
             (Blockchain.difficulty l) (Blockchain.miningReward l));
    try reflexivity.
  rewrite restore_blocks.
  destruct (Blockchain.new fuel now _ _); try reflexivity.
  destruct (forallb _ _); reflexivity.
Qed.

End Reload.

(** X8. Whenever a ledger written by [toJSON] loads, the loaded ledger has
    the same blocks field by field, the stored pending pool, difficulty and
    reward, [isChainValid()] answers on it what it answers on the original,
    and saving it again writes the same JSON. *)
Theorem reload_preserves_the_ledger {T : Type} `{JsonValue T}
    (fuel : nat) (now : nat -> Z) (l : Blockchain.t T) (l' : Blockchain.t json) :
  Blockchain.fromJSON fuel now (Blockchain.toJSON l) = Ok l' ->
  l' = ledger_at_rest l /\
  Blockchain.isChainValid l' = Blockchain.isChainValid l /\
  Blockchain.toJSON l' = Blockchain.toJSON l /\
  (forall i b, Blockchain.chain l !! i = Some b ->
               Block.hash b = Block.calculateHash b).
Proof.
  rewrite fromJSON_toJSON.
  destruct (Blockchain.new fuel now _ _); try discriminate.
  destruct (forallb _ (Blockchain.chain l)) eqn:Hall; [|discriminate].
  intros [= <-].
  split; [reflexivity |].
  split; [apply isChainValid_at_rest |].
  split; [apply toJSON_ledger_at_rest |].
  intros i b Hb. rewrite forallb_forall in Hall.
  specialize (Hall b). symmetry. apply String.eqb_eq. apply Hall.
  apply list_elem_of_In. apply list_elem_of_lookup. eauto.
Qed.

Lemma reload_preserves_the_ledger_witness :
  Blockchain.fromJSON 1 clockA (Blockchain.toJSON ledger1) = Ok (ledger_at_rest ledger1) /\
  Blockchain.isChainValid (ledger_at_rest ledger1) = Blockchain.isChainValid ledger1.
Proof.
  assert (Hl : Blockchain.fromJSON 1 clockA (Blockchain.toJSON ledger1)
               = Ok (ledger_at_rest ledger1)) by (vm_compute; reflexivity).
  split; [exact Hl |].
  destruct (reload_preserves_the_ledger 1 clockA ledger1 _ Hl) as (_ & Hv & _).
  exact Hv.
Defined.

(** ** Reachable ledgers are sealed and numbered *)

Lemma numbered_new {T : Type} `{JsonValue T} (fuel : nat) (now : nat -> Z)
    (d reward : Z) (l : Blockchain.t T) :
  Blockchain.new fuel now d reward = Ok l ->
  forall i b, Blockchain.chain l !! i = Some b ->
              Block.hash b = Block.calculateHash b /\ Block.index b = Z.of_nat i.
Proof.
  intros Hn. apply new_returns in Hn as (r & g & Hm & ->).
  apply mine_returns in Hm as (_ & _ & _ & Hb & Hh & _).
  intros [|i] b; cbn [Blockchain.chain]; [|discriminate].
  intros [= <-]. split; [rewrite <- Hh; rewrite Hb; reflexivity |].
  rewrite Hb. reflexivity.
Qed.

Lemma numbered_mine (fuel : nat) (now : nat -> Z) (addr : string)
    (l l' : Blockchain.t Transaction.t) (block : Block.t Transaction.t) :
  (forall i b, Blockchain.chain l !! i = Some b ->
               Block.hash b = Block.calculateHash b /\ Block.index b = Z.of_nat i) ->
  Blockchain.minePendingTransactions fuel now addr l = (Ok block, l') ->
  forall i b, Blockchain.chain l' !! i = Some b ->
              Block.hash b = Block.calculateHash b /\ Block.index b = Z.of_nat i.
Proof.
  intros Hall Hm.
  apply minePendingTransactions_returns in Hm as (head & result & _ & _ & Hm & ->).
  apply mine_returns in Hm as (_ & _ & _ & Hb & Hh & _).
  intros i b. cbn [Blockchain.chain]. intros Hi.
  destruct (decide (i < length (Blockchain.chain l))%nat) as [Hlt|Hge].
  - rewrite lookup_app_l in Hi by exact Hlt. apply Hall. exact Hi.
  - assert (i = length (Blockchain.chain l)) as ->.
    { apply lookup_lt_Some in Hi. rewrite length_app in Hi. cbn in Hi. lia. }
    rewrite lookup_app_r in Hi by lia. rewrite Nat.sub_diag in Hi.
    cbn in Hi. injection Hi as <-.
    split; [rewrite <- Hh; rewrite Hb; reflexivity |].
    rewrite Hb. reflexivity.
Qed.

Lemma reachable_numbered `{EC} (l : Blockchain.t Transaction.t) :
  reachable l ->
  forall i b, Blockchain.chain l !! i = Some b ->
              Block.hash b = Block.calculateHash b /\ Block.index b = Z.of_nat i.
Proof.
  induction 1 as [fuel now d reward l Hn
                 | tx l accepted l' _ IH Ha
                 | fuel now addr l block l' _ IH Hm].
  - eapply numbered_new. exact Hn.
  - apply addTransaction_keeps in Ha as (Hc & _). rewrite Hc. exact IH.
  - eapply numbered_mine; eassumption.
Qed.

(** X9. In every ledger reached from the constructor by calls that
    returned, each block, the first included, stores the digest of its own
    fields as its hash and its position in the chain as its index. *)
Theorem reachable_blocks_sealed_and_numbered `{EC}
    (l : Blockchain.t Transaction.t) (i : nat) (b : Block.t Transaction.t) :
  reachable l ->
  Blockchain.chain l !! i = Some b ->
  Block.hash b = Block.calculateHash b /\ Block.index b = Z.of_nat i.
Proof. intros Hr. apply reachable_numbered. exact Hr. Qed.

Lemma reachable_blocks_sealed_and_numbered_witness :
  @reachable sample_ec ledger3 /\
  Blockchain.chain ledger3 !! 1%nat = Some block1 /\
  Block.hash block1 = Block.calculateHash block1 /\
  Block.index block1 = 1.
Proof.
  split; [exact sample_reachable3 |]. split; [reflexivity |].
  exact (@reachable_blocks_sealed_and_numbered sample_ec ledger3 1%nat block1
           sample_reachable3 eq_refl).
Defined.

(** X10. Every ledger reached from the constructor by calls that returned
    passes [isChainValid()]. *)
Theorem reachable_ledgers_validate `{EC} (l : Blockchain.t Transaction.t) :
  reachable l -> Blockchain.isChainValid l = Ok true.
Proof. apply reachable_valid. Qed.

Lemma reachable_ledgers_validate_witness :
  @reachable sample_ec ledger3 /\ Blockchain.isChainValid ledger3 = Ok true.
Proof.
  split; [exact sample_reachable3 |].
  exact (@reachable_ledgers_validate sample_ec ledger3 sample_reachable3).
Defined.

(** X11. A ledger reached from the constructor by calls that returned can
    be saved and loaded: as soon as the ledger that [fromJSON] constructs at
    the stored difficulty is built, loading the saved form returns the ledger
    that was saved, and it passes [isChainValid()]. *)
Theorem reachable_ledgers_reload `{EC} (fuel : nat) (now : nat -> Z)
    (l : Blockchain.t Transaction.t) (fresh : Blockchain.t json) :
  reachable l ->
  Blockchain.new fuel now (Blockchain.difficulty l) (Blockchain.miningReward l)
  = Ok fresh ->
  Blockchain.fromJSON fuel now (Blockchain.toJSON l) = Ok (ledger_at_rest l) /\
  Blockchain.isChainValid (ledger_at_rest l) = Ok true.
Proof.
  intros Hr Hn. split.
  - rewrite fromJSON_toJSON, Hn.
    replace (forallb _ (Blockchain.chain l)) with true; [reflexivity |].
    symmetry. apply forallb_forall. intros b Hb.
    apply list_elem_of_In, list_elem_of_lookup in Hb as [i Hi].
    destruct (reachable_numbered l Hr i b Hi) as [<- _]. apply String.eqb_refl.
  - rewrite isChainValid_at_rest. apply reachable_valid. exact Hr.
Qed.

Lemma reachable_ledgers_reload_witness :
  @reachable sample_ec ledger3 /\
  Blockchain.new 1 clockA (Blockchain.difficulty ledger3) (Blockchain.miningReward ledger3)
  = Ok (ledger_at_rest ledger0) /\
  Blockchain.fromJSON 1 clockA (Blockchain.toJSON ledger3) = Ok (ledger_at_rest ledger3).
Proof.
  assert (Hn : Blockchain.new 1 clockA (Blockchain.difficulty ledger3)
                 (Blockchain.miningReward ledger3) = Ok (ledger_at_rest ledger0))
    by (vm_compute; reflexivity).
  split; [exact sample_reachable3 |]. split; [exact Hn |].
  exact (proj1 (@reachable_ledgers_reload sample_ec 1 clockA ledger3 _
                  sample_reachable3 Hn)).
Defined.

(** ** What a call leaves behind *)

(** The ways [minePendingTransactions] ends. *)
Lemma minePendingTransactions_cases (fuel : nat) (now : nat -> Z) (addr : string)
    (l l' : Blockchain.t Transaction.t) (o : outcome (Block.t Transaction.t)) :
  Blockchain.minePendingTransactions fuel now addr l = (o, l') ->
  let rewardTx :=
    Transaction.mk "MINING_REWARD" addr (Blockchain.miningReward l) (now 0%nat) None in
  (Blockchain.miningReward l <= 0 /\ o = Throw InvalidAmountError /\ l' = l) \/
  (0 < Blockchain.miningReward l /\
   exists block, o = Ok block /\
     l' = Blockchain.mk (Blockchain.chain l ++ [block]) []
            (Blockchain.difficulty l) (Blockchain.miningReward l)) \/
  (0 < Blockchain.miningReward l /\
   (o = Throw TypeError /\ Blockchain.chain l = [] \/
    Blockchain.chain l <> [] /\
    (o = Throw RangeError /\ Blockchain.difficulty l < 0 \/ o = OutOfFuel)) /\
   l' = Blockchain.set_pendingTransactions
          (Blockchain.pendingTransactions l ++ [rewardTx]) l).
Proof.
  unfold Blockchain.minePendingTransactions, Transaction.createMiningReward,
    Transaction.new, Blockchain.getLatestBlock.
  destruct (Z.leb_spec (Blockchain.miningReward l) 0) as [Hle|Hlt].
  - intros [= <- <-]. left. repeat split. exact Hle.
  - cbn [Blockchain.set_pendingTransactions Blockchain.chain
         Blockchain.pendingTransactions Blockchain.difficulty].
    destruct (last (Blockchain.chain l)) as [head|] eqn:Hl.
    + assert (Hne : Blockchain.chain l <> []) by (intros Hc; rewrite Hc in Hl; discriminate).
      unfold Miner.mine. cbn [Miner.difficulty]. unfold repeat_zero.
      destruct (Z.ltb_spec (Blockchain.difficulty l) 0) as [Hd|Hd].
      * intros [= <- <-]. right. right. split; [exact Hlt |]. split; [|reflexivity].
        right. split; [exact Hne |]. left. split; [reflexivity | exact Hd].
      * destruct (Miner.search _ _ _ _) as [[[h tried]|] mined]; intros [= <- <-].
        -- right. left. split; [exact Hlt |]. eexists. split; reflexivity.
        -- right. right. split; [exact Hlt |]. split; [|reflexivity].
           right. split; [exact Hne |]. right. reflexivity.
    + intros [= <- <-]. right. right. split; [exact Hlt |]. split; [|reflexivity].
      left. split; [reflexivity |]. destruct (Blockchain.chain l) as [|b0 rest] eqn:Hc;
        [reflexivity |].
      exfalso. clear -Hl. revert b0 Hl. induction rest as [|b1 rest IH]; intros b0 Hl;
        [discriminate | exact (IH b1 Hl)].
Qed.

Lemma call_keeps `{EC} (l l' : Blockchain.t Transaction.t) :
  call l l' ->
  Blockchain.chain l `prefix_of` Blockchain.chain l' /\
  Blockchain.difficulty l' = Blockchain.difficulty l /\
  Blockchain.miningReward l' = Blockchain.miningReward l.
Proof.
  intros [tx l0 o l0' Ha | fuel now addr l0 o l0' Hm].
  - apply addTransaction_keeps in Ha as (-> & -> & ->). repeat split. reflexivity.
  - apply minePendingTransactions_cases in Hm
      as [(_ & _ & ->) | [(_ & block & _ & ->) | (_ & _ & ->)]];
      cbn; repeat split; try reflexivity.
    apply prefix_app_r. reflexivity.
Qed.

(** X12. The ledger is append-only: through any sequence of
    [addTransaction] and [minePendingTransactions] calls, whether they return,
    throw or are cut short, the chain the ledger started with stays as the
    beginning of its chain, block for block, and the difficulty and the mining
    reward keep their values. *)
Theorem calls_only_append `{EC} (l l' : Blockchain.t Transaction.t) :
  rtc call l l' ->
  Blockchain.chain l `prefix_of` Blockchain.chain l' /\
  Blockchain.difficulty l' = Blockchain.difficulty l /\
  Blockchain.miningReward l' = Blockchain.miningReward l /\
  forall i b, Blockchain.chain l !! i = Some b -> Blockchain.chain l' !! i = Some b.
Proof.
  intros Hcalls.
  assert (Hkeep : Blockchain.chain l `prefix_of` Blockchain.chain l' /\
                  Blockchain.difficulty l' = Blockchain.difficulty l /\
                  Blockchain.miningReward l' = Blockchain.miningReward l).
  { induction Hcalls as [l | l l1 l2 Hstep _ IH]; [repeat split; reflexivity |].
    apply call_keeps in Hstep as (Hp & Hd & Hr).
    destruct IH as (Hp' & Hd' & Hr').
    split; [etrans; eassumption |]. split; congruence. }
  destruct Hkeep as (Hp & Hd & Hr). repeat split; try assumption.
  intros i b Hi. eapply prefix_lookup_Some; eassumption.
Qed.

Lemma calls_only_append_witness :
  rtc (@call sample_ec) ledger0 ledger3 /\
  Blockchain.chain ledger0 `prefix_of` Blockchain.chain ledger3 /\
  Blockchain.chain ledger3 !! 0%nat = Some genesis0.
Proof.
  assert (Hcalls : rtc (@call sample_ec) ledger0 ledger3).
  { eapply rtc_l; [eapply call_minePendingTransactions; exact sample_mine |].
    eapply rtc_l;
      [apply (@call_addTransaction sample_ec pay60 ledger1 (Ok true) ledger2);
       vm_compute; reflexivity |].
    eapply rtc_l;
      [apply (@call_addTransaction sample_ec pay70 ledger2 (Ok true) ledger3);
       vm_compute; reflexivity |].
    apply rtc_refl. }
  split; [exact Hcalls |].
  destruct (@calls_only_append sample_ec ledger0 ledger3 Hcalls) as (Hp & _ & _ & Hl).
  split; [exact Hp |]. apply Hl. reflexivity.
Defined.

(** X13. A ledger constructed with a mining reward of zero or less never
    gets a second block: [minePendingTransactions] throws InvalidAmount
    before it touches the ledger, every time. *)
Theorem no_reward_no_blocks `{EC} (l : Blockchain.t Transaction.t) :
  reachable l ->
  Blockchain.miningReward l <= 0 ->
  length (Blockchain.chain l) = 1%nat /\
  forall fuel now minerAddress,
    Blockchain.minePendingTransactions fuel now minerAddress l
    = (Throw InvalidAmountError, l).
Proof.
  intros Hr Hle. split.
  - induction Hr as [fuel now d reward l Hn
                    | tx l accepted l' _ IH Ha
                    | fuel now addr l block l' _ IH Hm].
    + apply new_returns in Hn as (_ & g & _ & ->). reflexivity.
    + apply addTransaction_keeps in Ha as (Hc & _ & Hrw).
      rewrite Hc. apply IH. lia.
    + apply minePendingTransactions_returns in Hm as (_ & _ & Hpos & _ & _ & ->).
      cbn in Hle. lia.
  - intros fuel now addr.
    unfold Blockchain.minePendingTransactions, Transaction.createMiningReward,
      Transaction.new.
    destruct (Z.leb_spec (Blockchain.miningReward l) 0); [reflexivity | lia].
Qed.

Lemma no_reward_no_blocks_witness :
  @reachable sample_ec (Blockchain.mk [genesis0] [] 1 0) /\
  Blockchain.miningReward (Blockchain.mk (T := Transaction.t) [genesis0] [] 1 0) <= 0 /\
  Blockchain.minePendingTransactions 1 clockB "alice" (Blockchain.mk [genesis0] [] 1 0)
  = (Throw InvalidAmountError, Blockchain.mk [genesis0] [] 1 0).
Proof.
  assert (Hr : @reachable sample_ec (Blockchain.mk [genesis0] [] 1 0)).
  { apply (@reach_new sample_ec 1 clockA 1 0). vm_compute. reflexivity. }
  assert (Hle : Blockchain.miningReward
                  (Blockchain.mk (T := Transaction.t) [genesis0] [] 1 0) <= 0)
    by (cbn; lia).
  split; [exact Hr |]. split; [exact Hle |].
  exact (proj2 (@no_reward_no_blocks sample_ec _ Hr Hle) 1%nat clockB "alice").
Defined.

(** X14. A call of [minePendingTransactions] that does not return a block
    leaves the chain as it was, but not always the pending pool: unless it
    failed with InvalidAmount, the reward transaction it had already pushed
    stays in the pool. On a ledger with an empty chain and a positive reward
    the call fails with a TypeError in just that way. *)
Theorem failed_mining_leaves_the_reward_pending (fuel : nat) (now : nat -> Z)
    (addr : string) (l l' : Blockchain.t Transaction.t)
    (o : outcome (Block.t Transaction.t)) :
  Blockchain.minePendingTransactions fuel now addr l = (o, l') ->
  (forall block, o <> Ok block) ->
  Blockchain.chain l' = Blockchain.chain l /\
  (o = Throw InvalidAmountError /\ l' = l \/
   o <> Throw InvalidAmountError /\
   Blockchain.pendingTransactions l'
   = (Blockchain.pendingTransactions l ++
      [Transaction.mk "MINING_REWARD" addr (Blockchain.miningReward l)
         (now 0%nat) None])%list) /\
  (Blockchain.chain l = [] -> 0 < Blockchain.miningReward l -> o = Throw TypeError).
Proof.
  intros Hm Hfail.
  apply minePendingTransactions_cases in Hm
    as [(Hle & -> & ->) | [(_ & block & -> & _) | (Hlt & Ho & ->)]].
  - split; [reflexivity |]. split; [left; split; reflexivity | intros _ ?; lia].
  - exfalso. apply (Hfail block). reflexivity.
  - split; [reflexivity |]. split.
    + right. split; [|reflexivity].
      destruct Ho as [(-> & _) | (_ & [(-> & _) | ->])]; discriminate.
    + intros Hc _. destruct Ho as [(-> & _) | (Hne & _)]; [reflexivity | contradiction].
Qed.

Lemma failed_mining_leaves_the_reward_pending_witness :
  Blockchain.minePendingTransactions 1 clockB "alice" (Blockchain.mk [] [] 1 100)
  = (Throw TypeError, Blockchain.mk [] [reward_alice] 1 100) /\
  Blockchain.pendingTransactions (Blockchain.mk (T := Transaction.t) [] [reward_alice] 1 100)
  = [reward_alice].
Proof.
  assert (Hm : Blockchain.minePendingTransactions 1 clockB "alice"
                 (Blockchain.mk [] [] 1 100)
               = (Throw TypeError, Blockchain.mk [] [reward_alice] 1 100))
    by reflexivity.
  split; [exact Hm |].
  destruct (failed_mining_leaves_the_reward_pending _ _ _ _ _ _ Hm
              ltac:(intros b; discriminate)) as (_ & [(Hx & _) | (_ & Hp)] & _);
    [discriminate Hx | exact Hp].
Defined.

(** ** History and balance *)

Lemma filter_flat_map {A B : Type} (p : B -> bool) (f : A -> list B) (xs : list A) :
  flat_map (fun x => List.filter p (f x)) xs = List.filter p (flat_map f xs).
Proof.
  induction xs as [|x xs IH]; [reflexivity |].
  cbn [flat_map]. rewrite List.filter_app, IH. reflexivity.
Qed.

(** A transaction that names the address neither as sender nor as
    recipient leaves the running balance as it is. *)
Lemma fold_credit_history (a : string) (txs : list Transaction.t) (balance : Z) :
  fold_left (Blockchain.credit a)
    (List.filter (fun tx => String.eqb (Transaction.sender tx) a
                            || String.eqb (Transaction.recipient tx) a) txs)
    balance
  = fold_left (Blockchain.credit a) txs balance.
Proof.
  revert balance. induction txs as [|tx txs IH]; intros balance; [reflexivity |].
  cbn [List.filter fold_left]. unfold Blockchain.credit at 3.
  destruct (String.eqb (Transaction.sender tx) a) eqn:Hs;
    destruct (String.eqb (Transaction.recipient tx) a) eqn:Hr;
    cbn [orb fold_left]; rewrite IH; unfold Blockchain.credit at 2;
    rewrite ?Hs, ?Hr; reflexivity.
Qed.

(** X15. [getTransactionHistory(address)] lists, in chain order, exactly
    the confirmed transactions that [address] sends or receives, never a
    pending one, and the balance of the address is the one its own history
    gives: the same subtractions and additions, in the same order, starting
    from zero. *)
Theorem history_is_complete_and_carries_the_balance
    (l : Blockchain.t Transaction.t) (address : string) :
  Blockchain.getTransactionHistory address l
  = List.filter (fun tx => String.eqb (Transaction.sender tx) address
                           || String.eqb (Transaction.recipient tx) address)
                (confirmed l) /\
  Blockchain.getBalanceOfAddress address l
  = fold_left (Blockchain.credit address)
      (Blockchain.getTransactionHistory address l) 0 /\
  forall pending,
    Blockchain.getTransactionHistory address
      (Blockchain.set_pendingTransactions pending l)
    = Blockchain.getTransactionHistory address l.
Proof.
  assert (Hh : Blockchain.getTransactionHistory address l
               = List.filter (fun tx => String.eqb (Transaction.sender tx) address
                                        || String.eqb (Transaction.recipient tx) address)
                             (confirmed l)).
  { unfold Blockchain.getTransactionHistory, confirmed. apply filter_flat_map. }
  split; [exact Hh |]. split; [|reflexivity].
  rewrite Hh, fold_credit_history. apply balance_is_fold.
Qed.

(** X16. A block that [minePendingTransactions] returned moves the balance
    of every address by the transactions of the pending pool it confirmed,
    one after the other in the order of the pool, and then by the reward
    transaction from "MINING_REWARD" to the miner. *)
Theorem mining_confirms_the_pool_and_pays_the_reward (fuel : nat) (now : nat -> Z)
    (minerAddress address : string) (l l' : Blockchain.t Transaction.t)
    (block : Block.t Transaction.t) :
  Blockchain.minePendingTransactions fuel now minerAddress l = (Ok block, l') ->
  Blockchain.getBalanceOfAddress address l'
  = Blockchain.credit address
      (fold_left (Blockchain.credit address) (Blockchain.pendingTransactions l)
         (Blockchain.getBalanceOfAddress address l))
      (Transaction.mk "MINING_REWARD" minerAddress (Blockchain.miningReward l)
         (now 0%nat) None).
Proof.
  intros Hm. rewrite (balance_after_mine _ _ _ address _ _ _ Hm).
  apply minePendingTransactions_returns in Hm as (head & result & _ & _ & Hb & _).
  apply mine_returns in Hb as (_ & _ & _ & -> & _).
  cbn [Block.transactions Block.set_hash Block.set_nonce Block.new].
  rewrite fold_left_app. reflexivity.
Qed.

Lemma mining_confirms_the_pool_and_pays_the_reward_witness :
  Blockchain.minePendingTransactions 1 clockB "alice" ledger0 = (Ok block1, ledger1) /\
  Blockchain.getBalanceOfAddress "alice" ledger1
  = Blockchain.credit "alice" (Blockchain.getBalanceOfAddress "alice" ledger0)
      reward_alice.
Proof.
  split; [exact sample_mine |].
  exact (mining_confirms_the_pool_and_pays_the_reward 1 clockB "alice" "alice"
           ledger0 ledger1 block1 sample_mine).
Defined.

(** ** What gets into a ledger *)

Lemma addTransaction_admits `{EC} (tx : Transaction.t) (l l' : Blockchain.t Transaction.t)
    (o : outcome bool) :
  Blockchain.addTransaction tx l = (o, l') ->
  l' = l \/
  admitted tx /\
  l' = Blockchain.set_pendingTransactions (Blockchain.pendingTransactions l ++ [tx]) l.
Proof.
  unfold Blockchain.addTransaction, admitted.
  destruct (String.eqb_spec (Transaction.sender tx) "MINING_REWARD") as [Hs|Hs];
    cbn [negb].
  - intros [= <- <-]. right. split; [left; exact Hs | reflexivity].
  - destruct (Transaction.isValid tx) eqn:Hv; cbn [negb].
    + destruct (_ <? _); intros [= <- <-]; [left; reflexivity |].
      right. split; [right; reflexivity | reflexivity].
    + intros [= <- <-]. left. reflexivity.
Qed.

(** X17. No transaction gets into a ledger without passing the admission
    test: in every ledger reached from the constructor by calls that returned,
    each transaction, pending or confirmed in a block, either has the sender
    "MINING_REWARD" or is valid under [isValid()]. *)
Theorem reachable_transactions_were_admitted `{EC} (l : Blockchain.t Transaction.t) :
  reachable l ->
  Forall admitted (Blockchain.pendingTransactions l) /\
  Forall admitted (confirmed l).
Proof.
  induction 1 as [fuel now d reward l Hn
                 | tx l accepted l' _ IH Ha
                 | fuel now addr l block l' _ IH Hm].
  - apply new_returns in Hn as (r & g & Hm & ->).
    apply mine_returns in Hm as (_ & _ & _ & -> & _).
    unfold confirmed. cbn. split; constructor.
  - destruct IH as [IHp IHc].
    apply addTransaction_admits in Ha as [-> | (Hadm & ->)]; [split; assumption |].
    split; [|exact IHc].
    cbn [Blockchain.set_pendingTransactions Blockchain.pendingTransactions].
    apply Forall_app. split; [exact IHp | constructor; [exact Hadm | constructor]].
  - destruct IH as [IHp IHc].
    apply minePendingTransactions_returns in Hm as (head & result & _ & _ & Hb & ->).
    apply mine_returns in Hb as (_ & _ & _ & -> & _).
    split; [constructor |].
    unfold confirmed in *. cbn [Blockchain.chain].
    rewrite flat_map_app. apply Forall_app. split; [exact IHc |].
    cbn [flat_map Block.transactions Block.set_hash Block.set_nonce Block.new].
    rewrite app_nil_r. apply Forall_app. split; [exact IHp |].
    constructor; [left; reflexivity | constructor].
Qed.

Lemma reachable_transactions_were_admitted_witness :
  @reachable sample_ec ledger3 /\
  Forall (@admitted sample_ec) (Blockchain.pendingTransactions ledger3) /\
  Forall (@admitted sample_ec) (confirmed ledger3).
Proof.
  split; [exact sample_reachable3 |].
  exact (@reachable_transactions_were_admitted sample_ec ledger3 sample_reachable3).
Defined.

(** ** Digests over concatenated fields *)

(** X18. The digest of a transaction is taken over its fields written one
    after the other with nothing between them, so characters can move from
    the end of the recipient to the front of the amount without changing it:
    the two transactions have the same digest, and a signature that
    [isValid()] accepts on one it accepts on the other. *)
Theorem transaction_digest_does_not_separate_fields `{EC}
    (from to moved : string) (amount amount' ts : Z) (sig : option string) :
  toString amount' = moved +:+ toString amount ->
  Transaction.calculateHash (Transaction.mk from (to +:+ moved) amount ts sig)
  = Transaction.calculateHash (Transaction.mk from to amount' ts sig) /\
  Transaction.isValid (Transaction.mk from (to +:+ moved) amount ts sig)
  = Transaction.isValid (Transaction.mk from to amount' ts sig).
Proof.
  intros Hn.
  assert (Hh : Transaction.calculateHash (Transaction.mk from (to +:+ moved) amount ts sig)
               = Transaction.calculateHash (Transaction.mk from to amount' ts sig)).
  { unfold Transaction.calculateHash.
    cbn [Transaction.sender Transaction.recipient Transaction.amount
         Transaction.timestamp].
    rewrite Hn, !append_assoc. reflexivity. }
  split; [exact Hh |].
  rewrite !isValid_cases.
  cbn [Transaction.sender Transaction.signature]. rewrite Hh. reflexivity.
Qed.

Lemma transaction_digest_does_not_separate_fields_witness :
  toString 15 = "1" +:+ toString 5 /\
  @Transaction.isValid sample_ec
    (Transaction.mk "alice" ("bob" +:+ "1") 5 1700000002000 (Some "signed-by:alice"))
  = @Transaction.isValid sample_ec
      (Transaction.mk "alice" "bob" 15 1700000002000 (Some "signed-by:alice")).
Proof.
  split; [reflexivity |].
  exact (proj2 (@transaction_digest_does_not_separate_fields sample_ec
                  "alice" "bob" "1" 5 15 1700000002000 (Some "signed-by:alice")
                  eq_refl)).
Defined.

(** X19. The digest of a block does not separate its fields either:
    characters can move from the end of the index to the front of the
    previous hash, and the two blocks have the same digest. *)
Theorem block_digest_does_not_separate_fields {T : Type} `{JsonValue T}
    (index index' ts : Z) (txs : list T) (moved prev : string) (n : Z) (h h' : string) :
  toString index' = toString index +:+ moved ->
  Block.calculateHash (Block.mk index ts txs (moved +:+ prev) n h)
  = Block.calculateHash (Block.mk index' ts txs prev n h').
Proof.
  intros Hn. unfold Block.calculateHash.
  cbn [Block.index Block.timestamp Block.transactions Block.previousHash Block.nonce].
  rewrite Hn, !append_assoc. reflexivity.
Qed.

Lemma block_digest_does_not_separate_fields_witness :
  toString 12 = toString 1 +:+ "2" /\
  Block.calculateHash
    (Block.mk (T := Transaction.t) 1 1700000001051 [reward_alice] ("2" +:+ "0ee3") 0 "")
  = Block.calculateHash
      (Block.mk (T := Transaction.t) 12 1700000001051 [reward_alice] "0ee3" 0 "").
Proof.
  split; [reflexivity |].
  exact (block_digest_does_not_separate_fields 1 12 1700000001051 [reward_alice]
           "2" "0ee3" 0 "" "" eq_refl).
Defined.

(** ** Signing *)

(** X20. [sign(privateKey)] writes the signature and nothing else, and only
    when the key's public key is the sender; with any other key, or when the
    package throws, it throws and leaves the transaction as it was. When the
    signature the package made verifies under the public key and is not
    empty, the signed transaction is valid. *)
Theorem sign_writes_a_signature_for_the_sender `{EC} `{ECKeys}
    (privateKey : string) (t : Transaction.t) :
  (forall t',
      Transaction.sign privateKey t = (Ok tt, t') ->
      ec_public privateKey = Some (Transaction.sender t) /\
      exists der,
        ec_sign privateKey (Transaction.calculateHash t) = Some der /\
        t' = Transaction.mk (Transaction.sender t) (Transaction.recipient t)
               (Transaction.amount t) (Transaction.timestamp t) (Some der) /\
        Transaction.calculateHash t' = Transaction.calculateHash t /\
        (der <> "" ->
         ec_verify (Transaction.sender t) (Transaction.calculateHash t) der = true ->
         Transaction.isValid t' = true)) /\
  (ec_public privateKey <> Some (Transaction.sender t) ->
   Transaction.sign privateKey t = (Throw PlainError, t)) /\
  (forall o t', Transaction.sign privateKey t = (o, t') -> o <> Ok tt -> t' = t).
Proof.
  unfold Transaction.sign. split; [|split].
  - intros t'. destruct (ec_public privateKey) as [pub|]; [|discriminate].
    destruct (String.eqb_spec pub (Transaction.sender t)) as [->|Hne];
      cbn [negb]; [|discriminate].
    destruct (ec_sign privateKey (Transaction.calculateHash t)) as [der|];
      [|discriminate].
    intros [= <-]. split; [reflexivity |]. exists der.
    repeat split. intros Hne Hv. rewrite isValid_cases.
    cbn [Transaction.sender Transaction.signature].
    apply String.eqb_neq in Hne. rewrite Hne.
    change (Transaction.calculateHash
              (Transaction.mk (Transaction.sender t) (Transaction.recipient t)
                 (Transaction.amount t) (Transaction.timestamp t) (Some der)))
      with (Transaction.calculateHash t).
    rewrite Hv. repeat destruct (String.eqb _ _); reflexivity.
  - intros Hne. destruct (ec_public privateKey) as [pub|]; [|reflexivity].
    destruct (String.eqb_spec pub (Transaction.sender t)) as [->|Hp];
      cbn [negb]; [congruence | reflexivity].
  - intros o t'. destruct (ec_public privateKey) as [pub|]; [|congruence].
    destruct (negb _); [congruence |].
    destruct (ec_sign _ _); [|congruence].
    intros [= <- <-] Ho. congruence.
Qed.

Lemma sign_writes_a_signature_for_the_sender_witness :
  @Transaction.sign sample_keys "carol" unsigned_carol = (Ok tt, signed_carol) /\
  @Transaction.isValid sample_ec signed_carol = true /\
  @Transaction.sign sample_keys "dave" unsigned_carol = (Throw PlainError, unsigned_carol).
Proof.
  destruct (@sign_writes_a_signature_for_the_sender sample_ec sample_keys
              "carol" unsigned_carol) as (Hok & _ & _).
  destruct (Hok signed_carol eq_refl) as (_ & der & Hder & Ht & _ & Hvalid).
  injection Hder as <-.
  split; [reflexivity |]. split.
  - rewrite Ht. apply Hvalid; [discriminate | reflexivity].
  - apply (@sign_writes_a_signature_for_the_sender sample_ec sample_keys
             "dave" unsigned_carol). discriminate.
Defined.

(** ** The hash test of the miner and the head of the chain *)

(** X21. [isValidHash(hash)] answers true exactly when the hash begins with
    [difficulty] zero characters, throws a RangeError at a negative
    difficulty, and accepts the hash of every block [mine] returned at the
    same difficulty. *)
Theorem isValidHash_is_the_mining_test {T : Type} `{JsonValue T}
    (miner : Miner.t) (h : string) :
  (0 <= Miner.difficulty miner ->
   exists answer, Miner.isValidHash miner h = Ok answer /\
                  (answer = true <-> begins_with_zeros (Miner.difficulty miner) h)) /\
  (Miner.difficulty miner < 0 -> Miner.isValidHash miner h = Throw RangeError) /\
  (forall fuel startTime endTime (block block' : Block.t T) result,
      Miner.mine fuel startTime endTime miner block = (Ok result, block') ->
      Miner.isValidHash miner (Block.hash block') = Ok true).
Proof.
  unfold Miner.isValidHash. split; [|split].
  - intros Hd. unfold repeat_zero.
    destruct (Z.ltb_spec (Miner.difficulty miner) 0); [lia |].
    eexists. split; [reflexivity |]. split.
    + intros Hs. apply (repeat_zero_begins _ (zeros (Z.to_nat (Miner.difficulty miner))));
        [unfold repeat_zero; destruct (Z.ltb_spec (Miner.difficulty miner) 0);
         [lia | reflexivity] | exact Hs].
    + intros Hz. apply begins_repeat_zero in Hz as (target & Ht & Hp).
      unfold repeat_zero in Ht.
      destruct (Z.ltb_spec (Miner.difficulty miner) 0); [discriminate |].
      injection Ht as <-. exact Hp.
  - intros Hd. unfold repeat_zero.
    destruct (Z.ltb_spec (Miner.difficulty miner) 0); [reflexivity | lia].
  - intros fuel st et block block' result Hm.
    apply mine_returns in Hm as (target & Ht & Hp & Hb & _).
    rewrite Ht. rewrite Hb. cbn [Block.hash Block.set_hash]. rewrite Hp. reflexivity.
Qed.

(** X22. [getLatestBlock()] is the block [minePendingTransactions] has just
    returned, and on every ledger reached from the constructor by calls that
    returned it is a block, never [undefined], whose index is the length of
    the chain minus one. *)
Theorem getLatestBlock_is_the_last_mined `{EC} :
  (forall fuel now addr (l l' : Blockchain.t Transaction.t) block,
      Blockchain.minePendingTransactions fuel now addr l = (Ok block, l') ->
      Blockchain.getLatestBlock l' = Some block) /\
  (forall l : Blockchain.t Transaction.t,
      reachable l ->
      exists head,
        Blockchain.getLatestBlock l = Some head /\
        Block.index head = Z.of_nat (length (Blockchain.chain l)) - 1).
Proof.
  split.
  - intros fuel now addr l l' block Hm.
    apply minePendingTransactions_returns in Hm as (_ & _ & _ & _ & _ & ->).
    unfold Blockchain.getLatestBlock. cbn [Blockchain.chain]. apply last_snoc.
  - intros l Hr. unfold Blockchain.getLatestBlock.
    destruct (reachable_invariant l Hr) as (Hne & _).
    rewrite last_lookup.
    destruct (Blockchain.chain l !! pred (length (Blockchain.chain l))) as [head|] eqn:Hl.
    + exists head. split; [reflexivity |].
      destruct (reachable_numbered l Hr _ _ Hl) as [_ ->].
      destruct (Blockchain.chain l); [contradiction | cbn [length]; lia].
    + apply lookup_ge_None in Hl.
      destruct (Blockchain.chain l); [contradiction | cbn [length] in Hl; lia].
Qed.

(** X23. [isChainValid()] does not protect the head of the chain: in a
    ledger it accepts, the last block can be replaced by any block that
    stores its own digest, carries the hash of the block before it and meets
    the difficulty, whatever it holds, and [isChainValid()] still answers
    true. *)
Theorem the_last_block_can_be_replaced {T : Type} `{JsonValue T}
    (l : Blockchain.t T) (before : list (Block.t T)) (previous final replaced : Block.t T) :
  Blockchain.chain l = (before ++ [previous; final])%list ->
  Blockchain.isChainValid l = Ok true ->
  Block.hash replaced = Block.calculateHash replaced ->
  Block.previousHash replaced = Block.hash previous ->
  begins_with_zeros (Blockchain.difficulty l) (Block.hash replaced) ->
  Blockchain.isChainValid
    (Blockchain.set_chain (before ++ [previous; replaced]) l) = Ok true.
Proof.
  intros Hc Hv Hseal Hlink Hz.
  apply isChainValid_true in Hv as (target & Ht & Hall).
  apply begins_repeat_zero in Hz as (target' & Ht' & Hp).
  rewrite Ht in Ht'. injection Ht' as <-.
  apply isChainValid_true. cbn [Blockchain.set_chain Blockchain.chain Blockchain.difficulty].
  exists target. split; [exact Ht |].
  rewrite Hc in Hall.
  change (before ++ [previous; final])%list
    with (before ++ [previous] ++ [final])%list in Hall.
  change (before ++ [previous; replaced])%list
    with (before ++ [previous] ++ [replaced])%list.
  rewrite app_assoc in Hall. rewrite app_assoc.
  set (front := (before ++ [previous])%list) in *.
  assert (Hfront : front !! (length front - 1)%nat = Some previous).
  { unfold front. rewrite length_app. cbn [length].
    rewrite lookup_app_r by lia.
    replace (length before + 1 - 1 - length before)%nat with 0%nat by lia. reflexivity. }
  intros j c p Hj Hjc Hjp.
  destruct (decide (j < length front)%nat) as [Hlt|Hge].
  - rewrite lookup_app_l in Hjc by exact Hlt.
    rewrite lookup_app_l in Hjp by lia.
    apply (Hall j c p Hj); rewrite lookup_app_l by lia; assumption.
  - assert (j = length front) as ->.
    { apply lookup_lt_Some in Hjc. rewrite length_app in Hjc. cbn in Hjc. lia. }
    rewrite lookup_app_r in Hjc by lia. rewrite Nat.sub_diag in Hjc.
    cbn in Hjc. injection Hjc as <-.
    rewrite lookup_app_l in Hjp by (unfold front; rewrite length_app; cbn; lia).
    rewrite Hfront in Hjp. injection Hjp as <-.
    repeat split; assumption.
Qed.

Lemma the_last_block_can_be_replaced_witness :
  Blockchain.chain ledger1 = ([] ++ [genesis0; block1])%list /\
  Blockchain.isChainValid ledger1 = Ok true /\
  Block.hash block1_forged = Block.calculateHash block1_forged /\
  Block.previousHash block1_forged = Block.hash genesis0 /\
  begins_with_zeros (Blockchain.difficulty ledger1) (Block.hash block1_forged) /\
  Blockchain.isChainValid (Blockchain.set_chain ([] ++ [genesis0; block1_forged]) ledger1)
  = Ok true.
Proof.
  assert (Hs : Block.hash block1_forged = Block.calculateHash block1_forged)
    by (vm_compute; reflexivity).
  assert (Hz : begins_with_zeros (Blockchain.difficulty ledger1) (Block.hash block1_forged)).
  { apply (repeat_zero_begins 1 "0"); reflexivity. }
  split; [reflexivity |]. split; [exact sample_valid1 |].
  split; [exact Hs |]. split; [reflexivity |]. split; [exact Hz |].
  exact (the_last_block_can_be_replaced ledger1 [] genesis0 block1 block1_forged
           eq_refl sample_valid1 Hs eq_refl Hz).
Defined.
